(** * Speech retrieval over Elasticsearch: a shallow embedding

    The development follows the Python sources:
    - [audiosearch_engine.py]: keyframe lookup, content hashes, the
      incremental indexing run, and the two search entry points;
    - [utils/export_index.py] and [utils/import_index.py]: the export of an
      index to batch files and its reconstruction.

    Python [str] values are byte strings in UTF-8; ordering two such strings
    byte by byte agrees with Python's ordering by code point.  Where Python
    looks at characters ([str.strip], [int]) the code points are read back
    from the bytes.  Dictionaries used as maps are [gmap]s, the search
    engine, the embedding model and the file system are collaborators whose
    answers are inputs of the functions below; a call that an exception
    leaves has no value ([None], or [Raises] where the exception matters). *)

From Stdlib Require Import ZArith QArith Ascii String List Bool Lia.
From stdpp Require Import base tactics option strings list gmap sorting.

Local Open Scope string_scope.
Local Open Scope list_scope.
Local Open Scope Z_scope.

(** ** Python string primitives *)

Module PyStr.

Fixpoint to_list (s : string) : list ascii :=
  match s with
  | "" => []
  | String a s' => a :: to_list s'
  end.

Fixpoint drop (n : nat) (s : string) : string :=
  match n, s with
  | O, _ => s
  | S n', "" => ""
  | S n', String _ s' => drop n' s'
  end.

Fixpoint take (n : nat) (s : string) : string :=
  match n, s with
  | O, _ => ""
  | S n', "" => ""
  | S n', String a s' => String a (take n' s')
  end.

(** [s[i:j]] and [s[i:]] for indices that are not negative. *)
Definition slice (s : string) (i j : Z) : string :=
  take (Z.to_nat (j - i)) (drop (Z.to_nat i) s).
Definition slice_from (s : string) (i : Z) : string :=
  drop (Z.to_nat i) s.

(** [s.rfind(c)]: index of the last occurrence of [c], or [-1]. *)
Fixpoint rfind_go (c : ascii) (s : string) (i last : Z) : Z :=
  match s with
  | "" => last
  | String a s' => rfind_go c s' (i + 1) (if Ascii.eqb a c then i else last)
  end.
Definition rfind (c : ascii) (s : string) : Z := rfind_go c s 0 (-1).

(** [s.startswith(p)] *)
Fixpoint startswith (s p : string) : bool :=
  match p, s with
  | "", _ => true
  | String _ _, "" => false
  | String b p', String a s' => Ascii.eqb a b && startswith s' p'
  end.

(** [s.endswith(suf)] *)
Fixpoint endswith (s suf : string) : bool :=
  String.eqb s suf ||
  match s with
  | "" => false
  | String _ s' => endswith s' suf
  end.

(** [s.endswith((suf1, suf2, ...))] *)
Definition endswith_any (s : string) (sufs : list string) : bool :=
  existsb (endswith s) sufs.

(** [s.split(c)[0]]: the part of [s] before the first [c]. *)
Fixpoint split_head (c : ascii) (s : string) : string :=
  match s with
  | "" => ""
  | String a s' => if Ascii.eqb a c then "" else String a (split_head c s')
  end.

(** [s.lower()] on ASCII letters; other bytes are kept. *)
Definition lower_ascii (a : ascii) : ascii :=
  let n := nat_of_ascii a in
  if ((65 <=? n) && (n <=? 90))%nat then ascii_of_nat (n + 32) else a.
Fixpoint lower (s : string) : string :=
  match s with
  | "" => ""
  | String a s' => String (lower_ascii a) (lower s')
  end.

(** *** Code points

    [chars s] is the sequence of code points of [s], each with the number
    of bytes it takes in [s].  Well-formed UTF-8 is decoded (no overlong
    form, no surrogate, nothing above U+10FFFF).  A byte that starts no
    well-formed sequence is read as [os.listdir] reads file names (error
    handler "surrogateescape"): as the lone surrogate U+DC00 + byte. *)

Definition continuation (b : N) : bool := ((128 <=? b) && (b <=? 191))%N.

Definition second_of_three (b0 b1 : N) : bool :=
  (if b0 =? 224 then (160 <=? b1) && (b1 <=? 191)
   else if b0 =? 237 then (128 <=? b1) && (b1 <=? 159)
   else (225 <=? b0) && (b0 <=? 239) && continuation b1)%N.

Definition second_of_four (b0 b1 : N) : bool :=
  (if b0 =? 240 then (144 <=? b1) && (b1 <=? 191)
   else if b0 =? 244 then (128 <=? b1) && (b1 <=? 143)
   else (241 <=? b0) && (b0 <=? 243) && continuation b1)%N.

Fixpoint chars (s : string) : list (N * nat) :=
  match s with
  | "" => []
  | String a0 s1 =>
      let b0 := N_of_ascii a0 in
      let escaped rest := ((56320 + b0)%N, 1%nat) :: rest in
      if (b0 <? 128)%N then (b0, 1%nat) :: chars s1
      else
        match s1 with
        | "" => escaped (chars s1)
        | String a1 s2 =>
            let b1 := N_of_ascii a1 in
            if ((194 <=? b0) && (b0 <=? 223))%N && continuation b1 then
              (((b0 - 192) * 64 + (b1 - 128))%N, 2%nat) :: chars s2
            else
              match s2 with
              | "" => escaped (chars s1)
              | String a2 s3 =>
                  let b2 := N_of_ascii a2 in
                  if second_of_three b0 b1 && continuation b2 then
                    (((b0 - 224) * 4096 + (b1 - 128) * 64 + (b2 - 128))%N,
                     3%nat) :: chars s3
                  else
                    match s3 with
                    | "" => escaped (chars s1)
                    | String a3 s4 =>
                        let b3 := N_of_ascii a3 in
                        if second_of_four b0 b1 && continuation b2
                           && continuation b3 then
                          (((b0 - 240) * 262144 + (b1 - 128) * 4096
                            + (b2 - 128) * 64 + (b3 - 128))%N, 4%nat)
                          :: chars s4
                        else escaped (chars s1)
                    end
              end
        end
  end.

(** [Py_UNICODE_ISSPACE]: the white space of [str.strip()] and
    [str.isspace()]. *)
Definition isspace (c : N) : bool :=
  ((9 <=? c) && (c <=? 13) || (28 <=? c) && (c <=? 32)
   || (c =? 133) || (c =? 160) || (c =? 5760)
   || (8192 <=? c) && (c <=? 8202)
   || (c =? 8232) || (c =? 8233) || (c =? 8239) || (c =? 8287)
   || (c =? 12288))%N.

(** The number of bytes taken by the white space at the head of a
    sequence of code points. *)
Fixpoint space_bytes (cs : list (N * nat)) : nat :=
  match cs with
  | (c, n) :: rest => if isspace c then (n + space_bytes rest)%nat else 0%nat
  | [] => 0%nat
  end.

Definition lstrip (s : string) : string := drop (space_bytes (chars s)) s.
Definition rstrip (s : string) : string :=
  take (String.length s - space_bytes (rev (chars s))) s.
(** [s.strip()] *)
Definition strip (s : string) : string := rstrip (lstrip s).

(** The code points with a decimal digit value ([Py_UNICODE_TODECIMAL]) come
    in runs of ten, zero to nine.  These are the zeros of Unicode 14.0, the
    database of CPython 3.11. *)
Definition decimal_zeros : list N :=
  [ 48; 1632; 1776; 1984; 2406; 2534; 2662; 2790; 2918; 3046; 3174; 3302;
    3430; 3558; 3664; 3792; 3872; 4160; 4240; 6112; 6160; 6470; 6608; 6784;
    6800; 6992; 7088; 7232; 7248; 42528; 43216; 43264; 43472; 43504; 43600;
    44016; 65296; 66720; 68912; 69734; 69872; 69942; 70096; 70384; 70736;
    70864; 71248; 71360; 71472; 71904; 72016; 72784; 73040; 73120; 92768;
    92864; 93008; 120782; 120792; 120802; 120812; 120822; 123200; 123632;
    125264; 130032 ]%N.

Definition to_decimal (c : N) : option N :=
  (λ zero, (c - zero)%N) <$>
  find (λ zero, ((zero <=? c) && (c <? zero + 10))%N) decimal_zeros.

(** [_PyUnicode_TransformDecimalAndSpaceToASCII], one code point: what is
    below 127 is kept, white space becomes a space and a decimal digit its
    ASCII digit; [None] is the "?" that ends the conversion, on which the
    parser below always fails. *)
Definition to_ascii (c : N) : option N :=
  if (c <? 127)%N then Some c
  else if isspace c then Some 32%N
  else (λ d, (48 + d)%N) <$> to_decimal c.

(** [Py_ISSPACE], the white space the integer parser skips. *)
Definition c_isspace (c : N) : bool :=
  ((9 <=? c) && (c <=? 13) || (c =? 32))%N.

Fixpoint skip_spaces (cs : list N) : list N :=
  match cs with
  | c :: rest => if c_isspace c then skip_spaces rest else cs
  | [] => []
  end.

(** The digit part of an integer literal: decimal digits, with single
    underscores allowed between two digits.  The result is the value, the
    number of digits read and what follows them. *)
Fixpoint scan_digits (cs : list N) (acc : Z) (digits : nat)
    (after_digit : bool) : option (Z * nat * list N) :=
  match cs with
  | [] => if after_digit then Some (acc, digits, []) else None
  | c :: rest =>
      if ((48 <=? c) && (c <=? 57))%N then
        scan_digits rest (10 * acc + Z.of_N (c - 48)) (S digits) true
      else if (c =? 95)%N then
        if after_digit then scan_digits rest acc digits false else None
      else if after_digit then Some (acc, digits, cs) else None
  end.

(** [sys.get_int_max_str_digits()], left at its default. *)
Definition int_max_str_digits : nat := 4300.

(** [int(s)] in base ten; [None] stands for [ValueError]. *)
Definition int (s : string) : option Z :=
  cs ← mapM to_ascii (chars s).*1;
  let cs := skip_spaces cs in
  let '(negative, cs) :=
    match cs with
    | c :: rest =>
        if (c =? 43)%N then (false, rest)
        else if (c =? 45)%N then (true, rest)
        else (false, cs)
    | [] => (false, cs)
    end in
  '(n, digits, rest) ← scan_digits cs 0 0 false;
  match skip_spaces rest with
  | [] =>
      if (digits <=? int_max_str_digits)%nat
      then Some (if negative then - n else n) else None
  | _ :: _ => None
  end.

(** [format(n, "0<width>x")] for [n] below [16 ^ width]: lower-case
    hexadecimal digits, padded with zeros on the left. *)
Definition hex_digit (n : N) : ascii :=
  match String.get (N.to_nat n) "0123456789abcdef" with
  | Some a => a
  | None => "0"%char
  end.

Fixpoint hex_fixed (width : nat) (n : N) : string :=
  match width with
  | O => ""
  | S w => hex_fixed w (n / 16) +:+ String (hex_digit (n mod 16)%N) ""
  end.

Lemma append_assoc (s1 s2 s3 : string) :
  (s1 +:+ s2) +:+ s3 = s1 +:+ (s2 +:+ s3).
Proof.
  induction s1 as [|a s1 IH]; [done|].
  change (String a ((s1 +:+ s2) +:+ s3) = String a (s1 +:+ (s2 +:+ s3))).
  by rewrite IH.
Qed.

Lemma append_empty_r (s : string) : s +:+ "" = s.
Proof.
  induction s as [|a s IH]; [done|].
  change (String a (s +:+ "") = String a s). by rewrite IH.
Qed.

Lemma length_append (s1 s2 : string) :
  String.length (s1 +:+ s2) = (String.length s1 + String.length s2)%nat.
Proof.
  induction s1 as [|a s1 IH]; [done|].
  change (S (String.length (s1 +:+ s2)) = S (String.length s1 + String.length s2)).
  by rewrite IH.
Qed.

(** Two strings that agree after one more character agree before it. *)
Lemma snoc_inj (s1 s2 : string) (a b : ascii) :
  s1 +:+ String a "" = s2 +:+ String b "" → s1 = s2 ∧ a = b.
Proof.
  revert s2. induction s1 as [|c s1 IH]; intros [|d s2] H.
  - by injection H.
  - injection H as _ H. by destruct s2.
  - injection H as _ H. by destruct s1.
  - injection H as -> H. apply IH in H as [-> ->]. done.
Qed.

Lemma append_inj_r (s1 s2 t : string) : s1 +:+ t = s2 +:+ t → s1 = s2.
Proof.
  revert s1 s2. induction t as [|a t IH]; intros s1 s2 H.
  - by rewrite !append_empty_r in H.
  - change (String a t) with (String a "" +:+ t) in H.
    rewrite <- !append_assoc in H. apply IH in H.
    by apply snoc_inj in H as [-> _].
Qed.

Lemma endswith_app (p suf : string) : endswith (p +:+ suf) suf = true.
Proof.
  induction p as [|a p IH].
  - change ("" +:+ suf) with suf.
    destruct suf; cbn [endswith]; by rewrite String.eqb_refl.
  - change (String a p +:+ suf) with (String a (p +:+ suf)).
    cbn [endswith]. rewrite IH. apply orb_true_r.
Qed.

Lemma endswith_inv (s suf : string) :
  endswith s suf = true → ∃ p, s = p +:+ suf.
Proof.
  induction s as [|a s IH]; cbn [endswith]; intros H.
  - rewrite orb_false_r in H. apply String.eqb_eq in H. by exists "".
  - apply orb_true_iff in H as [H|H].
    + apply String.eqb_eq in H. by exists "".
    + destruct (IH H) as [p ->]. by exists (String a p).
Qed.

Lemma endswith_spec (s suf : string) :
  endswith s suf = true ↔ ∃ p, s = p +:+ suf.
Proof.
  split; [apply endswith_inv|]. intros [p ->]. apply endswith_app.
Qed.

Lemma endswith_any_spec (s : string) (sufs : list string) :
  endswith_any s sufs = true ↔ ∃ suf p, suf ∈ sufs ∧ s = p +:+ suf.
Proof.
  unfold endswith_any. rewrite existsb_exists. split.
  - intros (suf & Hin & H). apply endswith_spec in H as [p ->].
    exists suf, p. by rewrite list_elem_of_In.
  - intros (suf & p & Hin & ->). exists suf.
    rewrite <- list_elem_of_In. split; [done|]. apply endswith_app.
Qed.

End PyStr.

(** ** [os.path] for POSIX paths *)

Module PosixPath.
Import PyStr.

Definition sep : ascii := "/"%char.
Definition extsep : ascii := "."%char.

(** [basename(p)]: [i = p.rfind(sep) + 1; return p[i:]] *)
Definition basename (p : string) : string :=
  let i := rfind sep p + 1 in
  slice_from p i.

(** [genericpath._splitext]: the extension starts at the last dot of the
    last component, unless only dots precede it in that component. *)
Definition splitext (p : string) : string * string :=
  let sepIndex := rfind sep p in
  let dotIndex := rfind extsep p in
  if sepIndex <? dotIndex then
    if existsb (fun a => negb (Ascii.eqb a extsep))
               (to_list (slice p (sepIndex + 1) dotIndex))
    then (slice p 0 dotIndex, slice_from p dotIndex)
    else (p, "")
  else (p, "").

(** One step of [join]: an absolute component replaces what came before. *)
Definition join2 (path b : string) : string :=
  if startswith b (String sep "") then b
  else if String.eqb path "" || endswith path (String sep "") then path +:+ b
  else path +:+ String sep "" +:+ b.

Definition join (a : string) (p : list string) : string :=
  foldl join2 a p.

End PosixPath.


(** ** Documents

    A document is the [_source] dictionary of a hit: the fields written by
    [_index_data], all present.  [start_frame] and [end_frame] hold what
    [item.get("start_frame")] and [item.get("end_frame")] returned for the
    record: an integer, or [None] when the record has no such key or holds
    [null] there.  The [embedding] key is absent when semantic search was
    disabled at indexing time, holds a vector otherwise, and holds [None]
    (JSON [null]) after an export. *)

Inductive embedding_field : Type :=
  | EmbAbsent
  | EmbNull
  | EmbVec (v : list Q).

Record document : Type := Document {
  text : string;
  start_frame : option Z;
  end_frame : option Z;
  start_sec : Q;
  end_sec : Q;
  file : string;
  video_name : string;
  L : nat;
  embedding : embedding_field
}.

(** ** Exceptions

    A call either returns a value or is left by an exception that none of
    its handlers catches. *)

Inductive exception : Type :=
  | TypeError
  | OSError.

Inductive result (A : Type) : Type :=
  | Returns (value : A)
  | Raises (e : exception).
Arguments Returns {A} value.
Arguments Raises {A} e.

(** ** Keyframe lookup ([list_keyframes_in_range]) *)

Module Keyframes.
Import PyStr PosixPath.

(** What the file system holds at a path for which [os.path.exists] is
    true: a directory with the names [os.listdir] returns for it, in the
    order it returns them, or something [os.listdir] raises on (a regular
    file: [NotADirectoryError]; a directory that may not be read:
    [PermissionError]; both are [OSError]s). *)
Inductive dir_entry : Type :=
  | Listing (names : list string)
  | NotListable.

(** The keyframe tree: every existing path with what it holds.  A path
    without an entry does not exist. *)
Abbreviation keyframe_tree := (gmap string dir_entry).

Definition image_exts : list string := [".webp"; ".jpg"; ".png"].

Definition keyframe_folder (entry : document) (base_keyframe_dir : string) : string :=
  let json_file := basename (file entry) in
  let video_name := (splitext json_file).1 in
  let k_folder := split_head "_" video_name in
  join base_keyframe_dir [k_folder; video_name].

(** [start_f <= frame_num <= end_f]: the second comparison is made only
    when the first holds, and comparing [None] with an integer raises
    [TypeError]. *)
Definition in_range (start_f end_f : option Z) (frame_num : Z) : result bool :=
  match start_f with
  | None => Raises TypeError
  | Some s =>
      if s <=? frame_num then
        match end_f with
        | None => Raises TypeError
        | Some e => Returns (frame_num <=? e)
        end
      else Returns false
  end.

(** The body of the [for fname in sorted(...)] loop: the new value of
    [frame_paths].  The [except] clause catches the [ValueError] of [int]
    and nothing else. *)
Definition keyframe_step (folder : string) (start_f end_f : option Z)
    (frame_paths : list string) (fname : string) : result (list string) :=
  if endswith_any fname image_exts then
    match int (splitext fname).1 with
    | Some frame_num =>
        match in_range start_f end_f frame_num with
        | Returns true => Returns (frame_paths ++ [join folder [fname]])
        | Returns false => Returns frame_paths
        | Raises e => Raises e
        end
    | None => Returns frame_paths
    end
  else Returns frame_paths.

Fixpoint keyframe_loop (folder : string) (start_f end_f : option Z)
    (frame_paths : list string) (names : list string) : result (list string) :=
  match names with
  | [] => Returns frame_paths
  | fname :: rest =>
      match keyframe_step folder start_f end_f frame_paths fname with
      | Returns frame_paths' =>
          keyframe_loop folder start_f end_f frame_paths' rest
      | Raises e => Raises e
      end
  end.

Definition list_keyframes_in_range (fs : keyframe_tree) (entry : document)
    (base_keyframe_dir : string) : result (list string) :=
  let folder := keyframe_folder entry base_keyframe_dir in
  let start_f := start_frame entry in
  let end_f := end_frame entry in
  match fs !! folder with
  | None => Returns []
  | Some NotListable => Raises OSError
  | Some (Listing names) =>
      keyframe_loop folder start_f end_f [] (merge_sort String.le names)
  end.

(** A directory entry is kept when its name ends in one of the image
    extensions and the part before its extension reads as an integer of the
    closed frame range. *)
Definition frame_selected (start_f end_f : Z) (fname : string) : Prop :=
  (∃ ext stem, ext ∈ image_exts ∧ fname = stem +:+ ext) ∧
  ∃ n, int (splitext fname).1 = Some n ∧ start_f ≤ n ≤ end_f.

Definition frame_selectedb (start_f end_f : Z) (fname : string) : bool :=
  endswith_any fname image_exts &&
  match int (splitext fname).1 with
  | Some n => (start_f <=? n) && (n <=? end_f)
  | None => false
  end.

(** The names on which the loop compares frame numbers: an image
    extension and an integer before it, here at or above a lower bound
    when there is one. *)
Definition compared (lower : option Z) (fname : string) : bool :=
  endswith_any fname image_exts &&
  match int (splitext fname).1 with
  | Some n => match lower with Some s => s <=? n | None => true end
  | None => false
  end.

(** A document and a keyframe tree for the examples. *)
Definition sample_entry : document :=
  {| text := "xe"; start_frame := Some 100; end_frame := Some 120;
     start_sec := 4 # 1; end_sec := 5 # 1;
     file := "/data/audio/K01_V001.json"; video_name := "K01_V001";
     L := 0%nat; embedding := EmbAbsent |}.

Definition sample_tree : keyframe_tree :=
  {[ "/data/keyframes/K01/K01_V001" := Listing ["90.jpg"; "130.jpg"; "105.jpg"] ]}.

Lemma frame_selectedb_spec start_f end_f fname :
  frame_selectedb start_f end_f fname = true ↔ frame_selected start_f end_f fname.
Proof.
  unfold frame_selectedb, frame_selected.
  rewrite andb_true_iff, endswith_any_spec.
  apply and_iff_compat_l.
  destruct (int (splitext fname).1) as [n|]; split.
  - intros H. exists n. split; [done|]. lia.
  - intros (m & [= <-] & ?). lia.
  - done.
  - by intros (m & ? & ?).
Qed.

Lemma keyframe_step_selected folder s e acc fname :
  keyframe_step folder (Some s) (Some e) acc fname =
  Returns (if frame_selectedb s e fname then acc ++ [join folder [fname]] else acc).
Proof.
  unfold keyframe_step, frame_selectedb, in_range.
  destruct (endswith_any fname image_exts); [|done].
  destruct (int (splitext fname).1) as [n|]; [|done].
  destruct (s <=? n); [|done]. by destruct (n <=? e).
Qed.

Lemma keyframe_loop_filter folder s e names acc :
  keyframe_loop folder (Some s) (Some e) acc names =
  Returns (acc ++ ((λ fname, join folder [fname]) <$>
                   filter (λ f, frame_selectedb s e f = true) names)).
Proof.
  revert acc. induction names as [|x names IH]; intros acc; cbn [keyframe_loop].
  - by rewrite app_nil_r.
  - rewrite keyframe_step_selected, IH, filter_cons.
    destruct (frame_selectedb s e x) eqn:Hx.
    + rewrite decide_True by done. by rewrite <- app_assoc.
    + rewrite decide_False by congruence. done.
Qed.

(** With a bound that is [None] the loop raises at the first name on which
    it reaches the comparison with that bound, and keeps nothing before. *)
Lemma keyframe_loop_untyped folder start_f end_f names acc :
  start_f = None ∨ end_f = None →
  keyframe_loop folder start_f end_f acc names =
  if existsb (compared start_f) names then Raises TypeError else Returns acc.
Proof.
  intros Hnone. revert acc.
  induction names as [|x names IH]; intros acc; cbn [keyframe_loop existsb]; [done|].
  unfold keyframe_step, compared at 1, in_range.
  destruct (endswith_any x image_exts); cbn [andb orb]; [|apply IH].
  destruct (int (splitext x).1) as [n|]; cbn [orb]; [|apply IH].
  destruct start_f as [s|]; [|done].
  destruct (s <=? n); cbn [orb]; [|apply IH].
  destruct Hnone as [?| ->]; done.
Qed.

Lemma sorted_names_perm (names names' : list string) :
  names ≡ₚ names' → merge_sort String.le names = merge_sort String.le names'.
Proof.
  intros Hp. apply (Sorted_unique String.le).
  - apply Sorted_merge_sort, _.
  - apply Sorted_merge_sort, _.
  - by rewrite !merge_sort_Permutation.
Qed.

Lemma existsb_perm {A} (f : A → bool) (l l' : list A) :
  l ≡ₚ l' → existsb f l = existsb f l'.
Proof.
  induction 1 as [|x l l' _ IH|x y l|l l' l'' _ IH1 _ IH2]; cbn [existsb].
  - done.
  - by rewrite IH.
  - by destruct (f x), (f y).
  - by rewrite IH1.
Qed.

Lemma StronglySorted_filter {A} (R : relation A) (P : A → Prop)
    `{∀ x, Decision (P x)} (l : list A) :
  StronglySorted R l → StronglySorted R (filter P l).
Proof.
  induction 1 as [|x l Hl IH Hx]; [constructor|].
  rewrite filter_cons. destruct (decide (P x)); [|done].
  constructor; [done|]. apply Forall_forall. intros y [_ Hy]%list_elem_of_filter.
  by eapply Forall_forall in Hx.
Qed.

Global Instance frame_selected_dec start_f end_f fname :
  Decision (frame_selected start_f end_f fname).
Proof.
  destruct (frame_selectedb start_f end_f fname) eqn:E.
  - left. by apply frame_selectedb_spec.
  - right. intros H%frame_selectedb_spec. congruence.
Defined.

Lemma keyframes_of_listing fs entry base names s e :
  fs !! keyframe_folder entry base = Some (Listing names) →
  start_frame entry = Some s → end_frame entry = Some e →
  list_keyframes_in_range fs entry base =
  Returns ((λ fname, join (keyframe_folder entry base) [fname]) <$>
           filter (frame_selected s e) (merge_sort String.le names)).
Proof.
  intros Hfs Hs He. unfold list_keyframes_in_range. rewrite Hfs, Hs, He.
  rewrite keyframe_loop_filter. cbn [app]. do 2 f_equal.
  apply list_filter_iff. intros f. apply frame_selectedb_spec.
Qed.

Lemma keyframes_untyped fs entry base names :
  fs !! keyframe_folder entry base = Some (Listing names) →
  start_frame entry = None ∨ end_frame entry = None →
  list_keyframes_in_range fs entry base =
  if existsb (compared (start_frame entry)) names
  then Raises TypeError else Returns [].
Proof.
  intros Hfs Hnone. unfold list_keyframes_in_range. rewrite Hfs.
  rewrite keyframe_loop_untyped by done.
  by rewrite (existsb_perm _ _ names (merge_sort_Permutation _ _)).
Qed.

(** C3. The keyframe directory of a document is [base/<folder>/<stem>],
    where the stem is the base name of the document's [file] without its
    extension and the folder is the part of the stem before its first
    underscore; it is the directory of the document's [video_name] when
    that field is the stem, as [_index_data] writes it.
    [list_keyframes_in_range] returns the empty list when this path does
    not exist, and raises when the path exists but cannot be listed.  When
    it is a directory and both frame bounds are integers, the result is the
    directory path joined with each kept name, where the kept names are
    sorted lexicographically and are exactly (with multiplicity) the listed
    names that end in ".webp", ".jpg" or ".png" and whose part before the
    extension reads as an integer between [start_frame] and [end_frame]
    inclusive; names that do not read as an integer are left out.  When a
    bound is [None], the call raises [TypeError] as soon as one listed name
    brings the loop to the comparison with that bound, and returns the empty
    list otherwise.  For a directory holding frames 90, 105 and 130 under
    one image extension and the range 100..120 the result is the single
    path of frame 105. *)
Theorem list_keyframes_in_range_spec (fs : keyframe_tree) (entry : document)
    (base : string) :
  let stem := (splitext (basename (file entry))).1 in
  let folder := keyframe_folder entry base in
  let result := list_keyframes_in_range fs entry base in
  folder = join base [split_head "_" stem; stem] ∧
  (video_name entry = stem →
   folder = join base [split_head "_" (video_name entry); video_name entry]) ∧
  (fs !! folder = None → result = Returns []) ∧
  (fs !! folder = Some NotListable → result = Raises OSError) ∧
  (∀ names s e,
     fs !! folder = Some (Listing names) →
     start_frame entry = Some s → end_frame entry = Some e →
     ∃ kept,
       result = Returns ((λ fname, join folder [fname]) <$> kept) ∧
       Sorted String.le kept ∧
       kept ≡ₚ filter (frame_selected s e) names ∧
       (∀ fname, fname ∈ names → int (splitext fname).1 = None → fname ∉ kept)) ∧
  (∀ names,
     fs !! folder = Some (Listing names) →
     start_frame entry = None ∨ end_frame entry = None →
     result = if existsb (compared (start_frame entry)) names
              then Raises TypeError else Returns []) ∧
  (∀ names ext,
     fs !! folder = Some (Listing names) →
     ext ∈ image_exts →
     names ≡ₚ ["90" +:+ ext; "105" +:+ ext; "130" +:+ ext] →
     start_frame entry = Some 100 → end_frame entry = Some 120 →
     result = Returns [join folder ["105" +:+ ext]]).
Proof.
  intros stem folder result.
  split; [done|]. split; [by intros ->|].
  split; [|split; [|split; [|split]]].
  - intros Hnone. unfold result, list_keyframes_in_range.
    fold folder. by rewrite Hnone.
  - intros Hfile. unfold result, list_keyframes_in_range.
    fold folder. by rewrite Hfile.
  - intros names s e Hfs Hs He.
    exists (filter (frame_selected s e) (merge_sort String.le names)).
    split; [by apply keyframes_of_listing|]. split; [|split].
    + apply StronglySorted_Sorted, StronglySorted_filter.
      apply StronglySorted_merge_sort; apply _.
    + by rewrite merge_sort_Permutation.
    + intros fname _ Hint [Hsel _]%list_elem_of_filter.
      destruct Hsel as (_ & n & Hn & _). congruence.
  - intros names Hfs Hnone. by apply keyframes_untyped.
  - intros names ext Hfs Hext Hperm Hs He.
    unfold result. rewrite (keyframes_of_listing _ _ _ _ _ _ Hfs Hs He).
    rewrite (sorted_names_perm _ _ Hperm). fold folder.
    assert (filter (frame_selected 100 120)
              (merge_sort String.le ["90" +:+ ext; "105" +:+ ext; "130" +:+ ext]) =
            ["105" +:+ ext]) as ->; [|done].
    unfold image_exts in Hext.
    repeat (apply elem_of_cons in Hext as [->|Hext]); [..|by apply elem_of_nil in Hext];
      vm_compute; reflexivity.
Qed.

Lemma list_keyframes_in_range_spec_witness :
  list_keyframes_in_range ∅ sample_entry "/data/keyframes" = Returns [] ∧
  list_keyframes_in_range sample_tree sample_entry "/data/keyframes" =
    Returns ["/data/keyframes/K01/K01_V001/105.jpg"].
Proof.
  pose proof (list_keyframes_in_range_spec ∅ sample_entry "/data/keyframes")
    as (_ & _ & Hmissing & _).
  pose proof (list_keyframes_in_range_spec sample_tree sample_entry
                "/data/keyframes") as (_ & _ & _ & _ & _ & _ & Hexample).
  split.
  - apply Hmissing. reflexivity.
  - apply (Hexample ["90.jpg"; "130.jpg"; "105.jpg"] ".jpg").
    + reflexivity.
    + unfold image_exts. repeat constructor.
    + change ("90" +:+ ".jpg") with "90.jpg".
      change ("105" +:+ ".jpg") with "105.jpg".
      change ("130" +:+ ".jpg") with "130.jpg".
      apply perm_skip, perm_swap.
    + reflexivity.
    + reflexivity.
Defined.

(** Read to the letter, the description of the lookup fails in four ways.
    Files named "90", "105" and "130", without an extension, are never
    returned.  The directory comes from [file], not from [video_name]: a
    document whose [video_name] names a directory full of frames gets none
    of them when its [file] has another stem.  A path that exists but is a
    regular file makes the call raise, and so does a frame bound that is
    [None] once a frame file is met. *)
Definition renamed_entry : document :=
  {| text := "xe"; start_frame := Some 100; end_frame := Some 120;
     start_sec := 4 # 1; end_sec := 5 # 1;
     file := "/data/audio/part1.json"; video_name := "K01_V001";
     L := 0%nat; embedding := EmbAbsent |}.

Definition unbounded_entry : document :=
  {| text := "xe"; start_frame := None; end_frame := Some 120;
     start_sec := 4 # 1; end_sec := 5 # 1;
     file := "/data/audio/K01_V001.json"; video_name := "K01_V001";
     L := 0%nat; embedding := EmbAbsent |}.

Lemma keyframes_read_to_the_letter :
  list_keyframes_in_range
    {[ "/data/keyframes/K01/K01_V001" := Listing ["90"; "105"; "130"] ]}
    sample_entry "/data/keyframes" = Returns [] ∧
  list_keyframes_in_range sample_tree renamed_entry "/data/keyframes" =
    Returns [] ∧
  list_keyframes_in_range {[ "/data/keyframes/K01/K01_V001" := NotListable ]}
    sample_entry "/data/keyframes" = Raises OSError ∧
  list_keyframes_in_range sample_tree unbounded_entry "/data/keyframes" =
    Raises TypeError.
Proof. repeat split; vm_compute; reflexivity. Qed.

End Keyframes.

(** ** The source tree and [os.walk] *)

Module Walk.
Import PyStr PosixPath.

(** A directory lists its entries in the order [os.scandir] yields them. *)
#[warnings="-register-all"] Inductive node : Type :=
  | File
  | Dir (entries : list (string * node)).

Definition is_dir (n : node) : bool :=
  match n with Dir _ => true | File => false end.

Definition dir_names (entries : list (string * node)) : list string :=
  fst <$> filter (λ e, is_dir e.2 = true) entries.
Definition nondir_names (entries : list (string * node)) : list string :=
  fst <$> filter (λ e, is_dir e.2 = false) entries.

(** [os.walk(top)], top-down: the triple of a directory comes before the
    triples of its subdirectories, which are visited in listing order.  A
    [top] that is not a directory yields nothing. *)
Fixpoint walk (top : string) (n : node) : list (string * list string * list string) :=
  match n with
  | File => []
  | Dir entries =>
      (top, dir_names entries, nondir_names entries) ::
      flat_map (λ e, walk (join top [e.1]) e.2) entries
  end.

(** The first loop of [_index_data]:
    [for root, _, files in os.walk(d): for file in files:
       if file.endswith(".json"): all_files.append(os.path.join(root, file))] *)
Definition json_files_of (triple : string * list string * list string) : list string :=
  let '(root, _, files) := triple in
  (λ file, join root [file]) <$> filter (λ file, endswith file ".json" = true) files.

Definition all_files (context_json_dir : string) (tree : node) : list string :=
  flat_map json_files_of (walk context_json_dir tree).

(** [tree_file top n p name]: under the directory [n] reached as [top], the
    path [p] is that of a regular file called [name]. *)
Inductive tree_file : string → node → string → string → Prop :=
  | tree_file_here top entries name :
      (name, File) ∈ entries →
      tree_file top (Dir entries) (join top [name]) name
  | tree_file_sub top entries d sub p name :
      (d, Dir sub) ∈ entries →
      tree_file (join top [d]) (Dir sub) p name →
      tree_file top (Dir entries) p name.

Lemma node_nested_ind (P : node → Prop) :
  P File →
  (∀ entries, Forall (λ e, P e.2) entries → P (Dir entries)) →
  ∀ n, P n.
Proof.
  intros HF HD. fix IH 1. intros [|entries]; [exact HF|].
  apply HD. induction entries as [|[name child] es IHes]; constructor.
  - apply IH.
  - exact IHes.
Qed.

Lemma flat_map_nested {A B C} (f : A → list B) (g : B → list C) (l : list A) :
  flat_map g (flat_map f l) = flat_map (λ a, flat_map g (f a)) l.
Proof.
  induction l as [|a l IH]; simpl; [done|].
  by rewrite flat_map_app, IH.
Qed.

(** The scan of a directory: its own transcript files in listing order,
    then the scan of each entry in listing order. *)
Lemma all_files_dir top entries :
  all_files top (Dir entries) =
  json_files_of (top, dir_names entries, nondir_names entries) ++
  flat_map (λ e, all_files (join top [e.1]) e.2) entries.
Proof.
  unfold all_files. cbn [walk flat_map]. f_equal. apply flat_map_nested.
Qed.

Lemma all_files_file top : all_files top File = [].
Proof. reflexivity. Qed.

Lemma elem_of_nondir_names name entries :
  name ∈ nondir_names entries ↔ (name, File) ∈ entries.
Proof.
  unfold nondir_names. rewrite list_elem_of_fmap. split.
  - intros ([n c] & -> & [Hc He]%list_elem_of_filter). simpl in *.
    by destruct c.
  - intros He. exists (name, File). split; [done|].
    by apply list_elem_of_filter.
Qed.

Lemma elem_of_json_files_here p top entries :
  p ∈ json_files_of (top, dir_names entries, nondir_names entries) ↔
  ∃ name, p = join top [name] ∧ (name, File) ∈ entries ∧
          endswith name ".json" = true.
Proof.
  unfold json_files_of. rewrite list_elem_of_fmap. split.
  - intros (name & -> & [Hj Hn]%list_elem_of_filter).
    exists name. by rewrite <- elem_of_nondir_names.
  - intros (name & -> & He & Hj). exists name. split; [done|].
    apply list_elem_of_filter. by rewrite elem_of_nondir_names.
Qed.

Lemma all_files_sound top tree p :
  p ∈ all_files top tree →
  ∃ name, tree_file top tree p name ∧ endswith name ".json" = true.
Proof.
  revert top. induction tree as [|entries IH] using node_nested_ind; intros top.
  - rewrite all_files_file. by intros ?%elem_of_nil.
  - rewrite all_files_dir, elem_of_app. intros [Hhere|Hsub].
    + apply elem_of_json_files_here in Hhere as (name & -> & He & Hj).
      exists name. split; [by constructor|done].
    + apply list_elem_of_In, in_flat_map in Hsub as ([d child] & He & Hp).
      apply list_elem_of_In in He, Hp. simpl in Hp.
      rewrite Forall_forall in IH.
      destruct (IH _ He _ Hp) as (name & Hfile & Hj).
      exists name. split; [|done].
      simpl in Hfile. destruct child as [|sub]; [inversion Hfile|].
      by eapply tree_file_sub.
Qed.

Lemma all_files_complete top tree p name :
  tree_file top tree p name → endswith name ".json" = true →
  p ∈ all_files top tree.
Proof.
  induction 1 as [top entries name He|top entries d sub p name He Hsub IH];
    intros Hj; rewrite all_files_dir, elem_of_app.
  - left. apply elem_of_json_files_here. by exists name.
  - right. apply list_elem_of_In, in_flat_map. exists (d, Dir sub).
    split; apply list_elem_of_In; [done|]. by apply IH.
Qed.

End Walk.

(** ** Incremental indexing ([SpeechRetrievalES._index_data]) *)

Module Sync.
Import PyStr PosixPath Walk.

(** One record of a transcript file, as the loop reads it.  A missing
    ["text"] reads as the empty string ([item.get("text", "")]); a missing
    ["start_frame"] or ["end_frame"] reads as [None] ([item.get(...)]).
    The values that are present have the types of the transcripts: a string
    for the text, integers for the frames, numbers for the times. *)
Record item : Type := Item {
  item_text : string;
  item_start_frame : option Z;
  item_end_frame : option Z;
  item_start_sec : Q;
  item_end_sec : Q
}.

(** The fields of [self] that the indexing run reads or writes. *)
Record engine : Type := Engine {
  context_json_dir : string;
  use_semantic : bool;
  force_reindex : bool;
  indexed_files : gmap string string
}.

(** The dimension of the [embedding] field in the mapping of
    [_setup_index]. *)
Definition embedding_dims : nat := 768.

(** What the index service checks on a write when its mapping is the one of
    [_setup_index]: a vector under [embedding] has [embedding_dims]
    components. *)
Definition dims_ok (doc : document) : bool :=
  match embedding doc with
  | EmbVec v => (length v =? embedding_dims)%nat
  | _ => true
  end.

(** The state threaded through the loops of [_index_data]: the tracker
    dictionary, every document passed to [self.es.index] in call order, and
    the two counters. *)
Record run_state : Type := RunState {
  tracker : gmap string string;
  es_calls : list document;
  count : nat;
  indexed_count : nat
}.

(** *** Sample inputs *)

(** A stand-in for [hashlib.md5(...).hexdigest()] in the examples: 32
    hexadecimal digits computed from the bytes.  The theorems of this
    module hold for every digest function. *)
Definition checksum (bytes : string) : N :=
  foldl (λ acc a, ((acc * 257 + N_of_ascii a) mod 2 ^ 128)%N) 5381%N
        (to_list bytes).

Definition sample_md5 (bytes : string) : string :=
  hex_fixed 32 (checksum bytes).

Definition sample_source : node :=
  Dir [("z.json", File); ("notes.txt", File);
       ("K01", Dir [("K01_V001.json", File)])].

Definition sample_disk : gmap string string :=
  {[ "data/z.json" := "transcript z";
     "data/K01/K01_V001.json" := "transcript K01_V001" ]}.

Definition sample_json_load (bytes : string) : option (list item) :=
  if String.eqb bytes "transcript z" then
    Some [ {| item_text := "   "; item_start_frame := Some 0; item_end_frame := Some 24;
              item_start_sec := 0; item_end_sec := 1 |};
           {| item_text := " xin chao "; item_start_frame := Some 25;
              item_end_frame := Some 60; item_start_sec := 1; item_end_sec := 2 # 1 |} ]
  else if String.eqb bytes "transcript K01_V001" then
    Some [ {| item_text := "xe o to"; item_start_frame := Some 100;
              item_end_frame := Some 120; item_start_sec := 4 # 1;
              item_end_sec := 5 # 1 |} ]
  else None.

(** A model that returns three components for every text. *)
Definition sample_encode (_ : string) : option (list Q) :=
  Some [1 # 2; 1 # 3; 1 # 4].

Definition accept_all (_ : document) : bool := true.

Definition sample_engine (semantic force : bool) (store : gmap string string)
    : engine :=
  {| context_json_dir := "data"; use_semantic := semantic;
     force_reindex := force; indexed_files := store |}.

Definition sample_item : item :=
  {| item_text := "xe o to"; item_start_frame := Some 100; item_end_frame := Some 120;
     item_start_sec := 4 # 1; item_end_sec := 5 # 1 |}.

Definition empty_state : run_state :=
  {| tracker := ∅; es_calls := []; count := 0; indexed_count := 0 |}.

Section run.

(** The collaborators and the files of one run:
    - [md5]: the hex digest of a byte string ([hashlib.md5]);
    - [disk]: the content of every file that can be opened for reading;
    - [json_load]: the records of a transcript, [None] when decoding or
      parsing raises;
    - [encode]: [self.model.encode(text).tolist()], [None] when it raises;
    - [es_index_ok]: whether [self.es.index] accepts the document, [false]
      when it raises. *)
Variable md5 : string → string.
Variable disk : gmap string string.
Variable tree : node.
Variable json_load : string → option (list item).
Variable encode : string → option (list Q).
Variable es_index_ok : document → bool.

Definition get_file_hash (filepath : string) : string :=
  match disk !! filepath with
  | Some bytes => md5 bytes
  | None => ""
  end.

Definition _should_index_file (self : engine) (filepath : string) : bool :=
  if force_reindex self then true
  else
    let current_hash := get_file_hash filepath in
    match indexed_files self !! filepath with
    | Some stored_hash =>
        if String.eqb stored_hash current_hash then false else true
    | None => true
    end.

(** The loop over the records of one file.  The result is the state after
    the loop and whether the loop ended without an exception. *)
Fixpoint index_entries (self : engine) (full_path video_name : string)
    (idx : nat) (data : list item) (st : run_state) : run_state * bool :=
  match data with
  | [] => (st, true)
  | it :: rest =>
      let text := strip (item_text it) in
      if String.eqb text "" then
        index_entries self full_path video_name (S idx) rest st
      else
        let doc emb :=
          {| text := text;
             start_frame := item_start_frame it;
             end_frame := item_end_frame it;
             start_sec := item_start_sec it;
             end_sec := item_end_sec it;
             file := full_path;
             video_name := video_name;
             L := idx;
             embedding := emb |} in
        let vec :=
          if use_semantic self then EmbVec <$> encode text else Some EmbAbsent in
        match vec with
        | None => (st, false)
        | Some emb =>
            let called :=
              {| tracker := tracker st;
                 es_calls := es_calls st ++ [doc emb];
                 count := count st;
                 indexed_count := indexed_count st |} in
            if es_index_ok (doc emb) then
              index_entries self full_path video_name (S idx) rest
                {| tracker := tracker called;
                   es_calls := es_calls called;
                   count := S (count called);
                   indexed_count := indexed_count called |}
            else (called, false)
        end
  end.

(** The body of [for full_path in files_to_index]: the [try] block and its
    [except], which only prints. *)
Definition index_file (self : engine) (st : run_state) (full_path : string)
    : run_state * bool :=
  let video_name := (splitext (basename full_path)).1 in
  match disk !! full_path ≫= json_load with
  | None => (st, false)
  | Some data =>
      let '(st', ok) := index_entries self full_path video_name 0 data st in
      if ok then
        ({| tracker := <[full_path := get_file_hash full_path]> (tracker st');
            es_calls := es_calls st';
            count := count st';
            indexed_count := S (indexed_count st') |}, true)
      else (st', false)
  end.

Definition files_to_index (self : engine) : list string :=
  filter (λ f, _should_index_file self f = true)
         (all_files (context_json_dir self) tree).

(** The result of a run: the final state and whether
    [_save_indexed_files] was called. *)
Definition _index_data (self : engine) : run_state * bool :=
  let start :=
    {| tracker := indexed_files self; es_calls := [];
       count := 0; indexed_count := 0 |} in
  let todo := files_to_index self in
  if (length todo =? 0)%nat then (start, false)
  else (foldl (λ st f, (index_file self st f).1) start todo, true).

(** [_load_indexed_files]: the tracker a new engine starts from.
    [tracker_file] is the dictionary stored in the tracker file, [None] when
    the file is missing, unreadable or not valid JSON. *)
Definition _load_indexed_files (force_reindex : bool)
    (tracker_file : option (gmap string string)) : gmap string string :=
  if force_reindex then ∅
  else
    match tracker_file with
    | Some data => data
    | None => ∅
    end.

(** How the [_save_indexed_files] that ends a run went.  Its [except]
    clause prints and returns, so the run ends in the same way in the
    three cases:
    - [Written]: the [with] block ran to its end;
    - [OpenFailed]: [open] raised and the file is as it was;
    - [WriteInterrupted]: [json.dump] raised after [open] had emptied the
      file; what is left is a proper prefix of a JSON object, which
      [json.load] refuses. *)
Inductive save_result : Type :=
  | Written
  | OpenFailed
  | WriteInterrupted.

(** The dictionary the next [json.load] reads from the tracker file
    ([None] when the file is missing or cannot be read as JSON), from the
    one readable [before] the run.  A run with nothing to index returns
    before [_save_indexed_files]. *)
Definition tracker_file_after (before : option (gmap string string))
    (run : run_state * bool) (save : save_result)
    : option (gmap string string) :=
  if run.2 then
    match save with
    | Written => Some (tracker run.1)
    | OpenFailed => before
    | WriteInterrupted => None
    end
  else before.

(** The engine of the next run: same configuration, tracker loaded by the
    constructor from the file this run left. *)
Definition next_engine (self : engine) (before : option (gmap string string))
    (save : save_result) : engine :=
  {| context_json_dir := context_json_dir self;
     use_semantic := use_semantic self;
     force_reindex := force_reindex self;
     indexed_files :=
       _load_indexed_files (force_reindex self)
         (tracker_file_after before (_index_data self) save) |}.

(** A second run over the same tree and disk. *)
Definition rerun (self : engine) (before : option (gmap string string))
    (save : save_result) : run_state * bool :=
  _index_data (next_engine self before save).

(** Whether the [try] block of a file runs to its end. *)
Definition completes (self : engine) (full_path : string) : bool :=
  (index_file self
     {| tracker := indexed_files self; es_calls := [];
        count := 0; indexed_count := 0 |} full_path).2.

Lemma should_index_file_iff (self : engine) (filepath : string) :
  _should_index_file self filepath = true ↔
  force_reindex self = true ∨
  indexed_files self !! filepath = None ∨
  ∃ stored, indexed_files self !! filepath = Some stored ∧
            stored ≠ get_file_hash filepath.
Proof.
  unfold _should_index_file.
  destruct (force_reindex self); [by split; [left|]|].
  destruct (indexed_files self !! filepath) as [stored|];
    [|by split; [right; left|]].
  destruct (String.eqb_spec stored (get_file_hash filepath)) as [->|Hne].
  - split; [done|]. intros [?|[?|(h & [= <-] & ?)]]; done.
  - split; [|done]. intros _. right; right. by exists stored.
Qed.

Lemma should_index_file_false (self : engine) (filepath : string) :
  _should_index_file self filepath = false ↔
  force_reindex self = false ∧
  indexed_files self !! filepath = Some (get_file_hash filepath).
Proof.
  unfold _should_index_file.
  destruct (force_reindex self); [by split; [|intros []]|].
  destruct (indexed_files self !! filepath) as [stored|];
    [|by split; [|intros []]].
  destruct (String.eqb_spec stored (get_file_hash filepath)) as [->|Hne].
  - done.
  - split; [done|]. intros [_ [= ?]]. done.
Qed.

Lemma index_entries_tracker self full_path vn idx data st :
  tracker (index_entries self full_path vn idx data st).1 = tracker st.
Proof.
  revert idx st. induction data as [|it rest IH]; intros idx st; simpl; [done|].
  destruct (String.eqb _ ""); [apply IH|].
  destruct (if use_semantic self then _ else _); [|done].
  destruct (es_index_ok _); [|done]. by rewrite IH.
Qed.

Lemma index_entries_ok_indep self full_path vn idx data st st' :
  (index_entries self full_path vn idx data st).2 =
  (index_entries self full_path vn idx data st').2.
Proof.
  revert idx st st'. induction data as [|it rest IH]; intros idx st st'; simpl; [done|].
  destruct (String.eqb _ ""); [apply IH|].
  destruct (if use_semantic self then _ else _); [|done].
  destruct (es_index_ok _); [|done]. apply IH.
Qed.

Lemma index_file_ok_indep self st st' f :
  (index_file self st f).2 = (index_file self st' f).2.
Proof.
  unfold index_file. destruct (disk !! f ≫= json_load) as [data|]; [|done].
  pose proof (index_entries_ok_indep self f (splitext (basename f)).1 0 data st st') as H.
  destruct (index_entries _ _ _ _ _ st) as [s1 ok1],
           (index_entries _ _ _ _ _ st') as [s2 ok2].
  simpl in H. subst ok2. by destruct ok1.
Qed.

Lemma index_file_tracker self st f :
  tracker (index_file self st f).1 =
  if completes self f then <[f := get_file_hash f]> (tracker st) else tracker st.
Proof.
  unfold completes.
  rewrite (index_file_ok_indep self _ st f).
  unfold index_file. destruct (disk !! f ≫= json_load) as [data|]; [|done].
  pose proof (index_entries_tracker self f (splitext (basename f)).1 0 data st) as H.
  destruct (index_entries _ _ _ _ _ st) as [s1 ok1]. simpl in *.
  destruct ok1; simpl; by rewrite ?H.
Qed.

Lemma fold_tracker_lookup self (l : list string) st p :
  tracker (foldl (λ st f, (index_file self st f).1) st l) !! p =
  if decide (p ∈ l ∧ completes self p = true)
  then Some (get_file_hash p) else tracker st !! p.
Proof.
  revert st. induction l as [|f l IH]; intros st; cbn [foldl].
  - rewrite decide_False; [done|]. intros [?%elem_of_nil _]. done.
  - rewrite IH, index_file_tracker.
    destruct (decide (p ∈ l ∧ completes self p = true)) as [[Hl Hc]|Hn].
    + rewrite decide_True; [done|]. split; [by right|done].
    + destruct (decide (p = f)) as [->|Hne].
      * destruct (completes self f) eqn:Hc.
        -- rewrite lookup_insert_eq, decide_True; [done|]. split; [by left|done].
        -- rewrite decide_False; [done|]. intros [_ ?]. congruence.
      * rewrite decide_False.
        -- destruct (completes self f); [by rewrite lookup_insert_ne|done].
        -- intros [[?|?]%elem_of_cons ?]; naive_solver.
Qed.

Lemma filter_ext_elem {A} (P Q : A → Prop) `{∀ x, Decision (P x)}
    `{∀ x, Decision (Q x)} (l : list A) :
  (∀ x, x ∈ l → P x ↔ Q x) → filter P l = filter Q l.
Proof.
  induction l as [|x l IH]; intros Hl; [done|].
  rewrite !filter_cons.
  assert (P x ↔ Q x) as Hx by (apply Hl; left).
  rewrite IH by (intros y Hy; apply Hl; by right).
  destruct (decide (P x)), (decide (Q x)); tauto || done.
Qed.

Lemma next_engine_store self before :
  force_reindex self = false →
  indexed_files self = _load_indexed_files false before →
  indexed_files (next_engine self before Written) = tracker (_index_data self).1.
Proof.
  intros Hforce Hbuilt. unfold next_engine, tracker_file_after.
  cbn [indexed_files]. rewrite Hforce. unfold _index_data.
  destruct (length (files_to_index self) =? 0)%nat; cbn [fst snd tracker]; done.
Qed.

Lemma index_data_tracker_lookup self p :
  tracker (_index_data self).1 !! p =
  if decide (p ∈ files_to_index self ∧ completes self p = true)
  then Some (get_file_hash p) else indexed_files self !! p.
Proof.
  unfold _index_data.
  destruct (length (files_to_index self) =? 0)%nat eqn:Hlen.
  - apply Nat.eqb_eq, nil_length_inv in Hlen. rewrite Hlen. cbn [fst tracker].
    rewrite decide_False; [done|]. by intros [?%elem_of_nil _].
  - cbn [fst]. by rewrite fold_tracker_lookup.
Qed.

Lemma elem_of_files_to_index self f :
  f ∈ files_to_index self ↔
  f ∈ all_files (context_json_dir self) tree ∧ _should_index_file self f = true.
Proof. unfold files_to_index. rewrite list_elem_of_filter. tauto. Qed.

Lemma next_engine_dirty self before f :
  force_reindex self = false →
  indexed_files self = _load_indexed_files false before →
  f ∈ all_files (context_json_dir self) tree →
  _should_index_file (next_engine self before Written) f = true ↔
  _should_index_file self f = true ∧ completes self f = false.
Proof.
  intros Hforce Hbuilt Hall.
  pose proof (next_engine_store self before Hforce Hbuilt) as Hstore.
  destruct (_should_index_file (next_engine self before Written) f) eqn:Hnext.
  - split; [intros _|done].
    destruct (decide (f ∈ files_to_index self ∧ completes self f = true))
      as [[Hin Hc]|Hn].
    + exfalso.
      assert (_should_index_file (next_engine self before Written) f = false)
        as Hf; [|congruence].
      apply should_index_file_false. split; [done|].
      rewrite Hstore, index_data_tracker_lookup. rewrite decide_True; done.
    + assert (_should_index_file self f = true) as Hs.
      { rewrite <- Hnext. unfold _should_index_file at 2.
        rewrite Hstore. cbn [force_reindex next_engine].
        rewrite index_data_tracker_lookup, decide_False by done.
        unfold _should_index_file. by rewrite Hforce. }
      split; [done|]. destruct (completes self f) eqn:Hc; [|done].
      exfalso. apply Hn. split; [|done]. by apply elem_of_files_to_index.
  - split; [done|]. intros [Hs Hc]. exfalso.
    apply should_index_file_false in Hnext as [_ Hlook].
    rewrite Hstore, index_data_tracker_lookup in Hlook.
    rewrite decide_False in Hlook by (intros [_ ?]; congruence).
    assert (_should_index_file self f = false) as Hf; [|congruence].
    apply should_index_file_false. done.
Qed.

(** Without the force flag and after a save that worked, the next run
    retries exactly the files whose [try] block was cut short by an
    exception. *)
Lemma next_run_files self before :
  force_reindex self = false →
  indexed_files self = _load_indexed_files false before →
  files_to_index (next_engine self before Written) =
  filter (λ f, completes self f = false) (files_to_index self).
Proof.
  intros Hforce Hbuilt. unfold files_to_index at 1 2.
  change (context_json_dir (next_engine self before Written))
    with (context_json_dir self).
  rewrite list_filter_filter.
  apply filter_ext_elem. intros f Hf.
  rewrite (next_engine_dirty self before f Hforce Hbuilt Hf). tauto.
Qed.

Lemma index_data_no_dirty_file self :
  files_to_index self = [] → _index_data self =
    ({| tracker := indexed_files self; es_calls := [];
        count := 0; indexed_count := 0 |}, false).
Proof. intros H. unfold _index_data. by rewrite H. Qed.

Lemma completes_readable self f :
  completes self f = true → is_Some (disk !! f).
Proof.
  unfold completes, index_file.
  destruct (disk !! f) as [bytes|]; [by eexists|]. done.
Qed.

Lemma index_entries_calls_extend self full_path vn idx data st :
  ∃ later, es_calls (index_entries self full_path vn idx data st).1 =
           es_calls st ++ later ∧
           Forall (λ doc, file doc = full_path) later.
Proof.
  revert idx st. induction data as [|it rest IH]; intros idx st; simpl.
  - exists []. by rewrite app_nil_r.
  - destruct (String.eqb _ ""); [apply IH|].
    destruct (if use_semantic self then _ else _) as [emb|];
      [|exists []; by rewrite app_nil_r].
    destruct (es_index_ok _).
    + edestruct IH as (later & -> & Hlater). simpl. rewrite <- app_assoc.
      eexists. split; [done|]. by constructor.
    + simpl. eexists. split; [done|]. by repeat constructor.
Qed.

Lemma index_file_calls self st f :
  ∃ later, es_calls (index_file self st f).1 = es_calls st ++ later ∧
           Forall (λ doc, file doc = f) later.
Proof.
  unfold index_file. destruct (disk !! f ≫= json_load) as [data|];
    [|exists []; by rewrite app_nil_r].
  destruct (index_entries_calls_extend self f (splitext (basename f)).1 0 data st)
    as (later & Hcalls & Hlater).
  destruct (index_entries _ _ _ _ _ st) as [st' ok]. simpl in Hcalls.
  exists later. by destruct ok.
Qed.

Lemma fold_calls_files self (l : list string) st :
  ∃ later,
    es_calls (foldl (λ st f, (index_file self st f).1) st l) =
      es_calls st ++ later ∧
    Forall (λ doc, file doc ∈ l) later.
Proof.
  revert st. induction l as [|f l IH]; intros st; cbn [foldl].
  - exists []. by rewrite app_nil_r.
  - destruct (IH (index_file self st f).1) as (l2 & -> & Hl2).
    destruct (index_file_calls self st f) as (l1 & -> & Hl1).
    exists (l1 ++ l2). rewrite <- app_assoc. split; [done|].
    apply Forall_app. split.
    + eapply Forall_impl; [exact Hl1|]. intros doc ->. by left.
    + eapply Forall_impl; [exact Hl2|]. intros doc ?. by right.
Qed.

(** Every document a run passes to the index comes from a file it selected
    for indexing. *)
Lemma index_data_calls_files self doc :
  doc ∈ es_calls (_index_data self).1 → file doc ∈ files_to_index self.
Proof.
  unfold _index_data.
  destruct (length (files_to_index self) =? 0)%nat; cbn [fst es_calls].
  - by intros ?%elem_of_nil.
  - destruct (fold_calls_files self (files_to_index self)
                {| tracker := indexed_files self; es_calls := [];
                   count := 0; indexed_count := 0 |}) as (later & -> & Hlater).
    cbn [es_calls app]. intros Hdoc.
    by eapply Forall_forall in Hlater.
Qed.

(** A loop over the records of a file that ends without an exception has
    passed a document to the index for every record with non-blank text. *)
Lemma index_entries_submits self full_path vn idx data st :
  (index_entries self full_path vn idx data st).2 = true →
  ∀ i it, data !! i = Some it → strip (item_text it) ≠ "" →
    ∃ doc, doc ∈ es_calls (index_entries self full_path vn idx data st).1 ∧
           file doc = full_path ∧ L doc = (idx + i)%nat ∧
           text doc = strip (item_text it).
Proof.
  revert idx st. induction data as [|it0 rest IH]; intros idx st Hok i it Hi Htext;
    [done|].
  cbn [index_entries] in *.
  destruct (String.eqb_spec (strip (item_text it0)) "") as [Hblank|Hfull].
  - destruct i as [|i]; [injection Hi as ->; done|].
    destruct (IH (S idx) st Hok i it Hi Htext) as (doc & ? & ? & HL & ?).
    exists doc. split; [done|]. split; [done|]. split; [lia|done].
  - destruct (if use_semantic self then _ else _) as [emb|]; [|done].
    destruct (es_index_ok _); [|done].
    destruct i as [|i].
    + injection Hi as ->.
      edestruct index_entries_calls_extend as (later & Hcalls & _).
      rewrite Hcalls. cbn [es_calls]. eexists. split.
      * apply elem_of_app. left. apply elem_of_app. right. left.
      * cbn [file L text]. split; [done|]. split; [lia|done].
    + destruct (IH (S idx) _ Hok i it Hi Htext) as (doc & ? & ? & HL & ?).
      exists doc. split; [done|]. split; [done|]. split; [lia|done].
Qed.

Lemma index_file_submits self st f data :
  disk !! f ≫= json_load = Some data → completes self f = true →
  ∀ i it, data !! i = Some it → strip (item_text it) ≠ "" →
    ∃ doc, doc ∈ es_calls (index_file self st f).1 ∧
           file doc = f ∧ L doc = i ∧ text doc = strip (item_text it).
Proof.
  intros Hdata Hc i it Hi Htext. unfold completes in Hc.
  rewrite (index_file_ok_indep self _ st f) in Hc. revert Hc.
  unfold index_file. rewrite Hdata.
  pose proof (index_entries_submits self f (splitext (basename f)).1 0 data st)
    as Hsub.
  destruct (index_entries _ _ _ _ _ st) as [st' ok]. cbn [fst snd] in *.
  destruct ok; [|done]. intros _. cbn [fst es_calls].
  by apply Hsub.
Qed.

Lemma fold_submits self (l : list string) st f data :
  f ∈ l → disk !! f ≫= json_load = Some data → completes self f = true →
  ∀ i it, data !! i = Some it → strip (item_text it) ≠ "" →
    ∃ doc, doc ∈ es_calls (foldl (λ st f, (index_file self st f).1) st l) ∧
           file doc = f ∧ L doc = i ∧ text doc = strip (item_text it).
Proof.
  intros Hin Hdata Hc i it Hi Htext. revert st.
  induction l as [|g l IH]; intros st; [by apply elem_of_nil in Hin|].
  cbn [foldl]. apply elem_of_cons in Hin as [<-|Hin].
  - destruct (index_file_submits self st f data Hdata Hc i it Hi Htext)
      as (doc & Hdoc & ?).
    exists doc. split; [|done].
    destruct (fold_calls_files self l (index_file self st f).1)
      as (later & -> & _).
    apply elem_of_app. by left.
  - by apply IH.
Qed.

(** C1. A file found by the scan is among the files the run re-indexes
    exactly when the force flag is set, or the tracker has no entry for its
    path, or the stored hash differs from the current hash of the file.
    Re-indexing is by file: every document passed to the index comes from
    such a file, and such a file whose [try] block runs to its end has a
    document passed to the index for each of its records with non-blank
    text and its current hash stored in the tracker.  When the force flag is
    not set, the engine was built from the tracker file, the first run
    carried every file it re-indexed to the end of its [try] block and the
    save that ends it wrote the tracker file, a second run over the same
    tree and disk, by an engine built from that file, passes no document to
    the index. *)
Theorem sync_dirty_policy (self : engine) :
  (∀ f, f ∈ files_to_index self ↔
        f ∈ all_files (context_json_dir self) tree ∧
        (force_reindex self = true ∨
         indexed_files self !! f = None ∨
         ∃ stored, indexed_files self !! f = Some stored ∧
                   stored ≠ get_file_hash f)) ∧
  (∀ doc, doc ∈ es_calls (_index_data self).1 →
          file doc ∈ files_to_index self) ∧
  (∀ f data,
     f ∈ files_to_index self →
     disk !! f ≫= json_load = Some data → completes self f = true →
     tracker (_index_data self).1 !! f = Some (get_file_hash f) ∧
     ∀ i it, data !! i = Some it → strip (item_text it) ≠ "" →
       ∃ doc, doc ∈ es_calls (_index_data self).1 ∧
              file doc = f ∧ L doc = i ∧ text doc = strip (item_text it)) ∧
  (∀ before,
     force_reindex self = false →
     indexed_files self = _load_indexed_files false before →
     forallb (completes self) (files_to_index self) = true →
     es_calls (rerun self before Written).1 = []).
Proof.
  split; [|split; [|split]].
  - intros f. by rewrite elem_of_files_to_index, should_index_file_iff.
  - apply index_data_calls_files.
  - intros f data Hin Hdata Hc. split.
    + rewrite index_data_tracker_lookup. by rewrite decide_True.
    + intros i it Hi Htext. unfold _index_data.
      destruct (length (files_to_index self) =? 0)%nat eqn:Hlen.
      * apply Nat.eqb_eq, nil_length_inv in Hlen. rewrite Hlen in Hin.
        by apply elem_of_nil in Hin.
      * cbn [fst]. by eapply fold_submits.
  - intros before Hforce Hbuilt Hall.
    unfold rerun. rewrite index_data_no_dirty_file; [done|].
    rewrite next_run_files by done.
    rewrite forallb_forall in Hall.
    induction (files_to_index self) as [|f l IH]; [done|].
    rewrite filter_cons, decide_False.
    + apply IH. intros g Hg. apply Hall. by right.
    + rewrite (Hall f) by (by left). done.
Qed.


(** C7. [_index_data] compares no vector length with the dimension of the
    mapping.  A record with non-blank text is turned into a document whose
    [embedding] is whatever [encode] returned, of any length, and that
    document is passed to [self.es.index].  When the index refuses it, the
    loop over the file stops there: the refused document is the last one
    passed for that file, the counter is not advanced, and the file gets no
    entry in the tracker. *)
Theorem no_dimension_check (self : engine) (full_path : string) (idx : nat)
    (it : item) (rest : list item) (st : run_state) (v : list Q) :
  use_semantic self = true →
  strip (item_text it) ≠ "" →
  encode (strip (item_text it)) = Some v →
  let vn := (splitext (basename full_path)).1 in
  let doc :=
    {| text := strip (item_text it);
       start_frame := item_start_frame it; end_frame := item_end_frame it;
       start_sec := item_start_sec it; end_sec := item_end_sec it;
       file := full_path; video_name := vn; L := idx;
       embedding := EmbVec v |} in
  (∃ later,
     es_calls (index_entries self full_path vn idx (it :: rest) st).1 =
     es_calls st ++ doc :: later) ∧
  (es_index_ok doc = false →
   index_entries self full_path vn idx (it :: rest) st =
   ({| tracker := tracker st; es_calls := es_calls st ++ [doc];
       count := count st; indexed_count := indexed_count st |}, false)) ∧
  (∀ f st0, (index_file self st0 f).2 = false →
            tracker (index_file self st0 f).1 = tracker st0).
Proof.
  intros Hsem Htext Henc vn doc. split; [|split].
  - cbn [index_entries]. apply String.eqb_neq in Htext. rewrite Htext, Hsem, Henc.
    cbn [fmap option_fmap option_map]. fold doc.
    destruct (es_index_ok doc); [|by exists []].
    edestruct index_entries_calls_extend as (later & -> & _). cbn [es_calls].
    rewrite <- app_assoc. by exists later.
  - intros Hrej. cbn [index_entries]. apply String.eqb_neq in Htext.
    rewrite Htext, Hsem, Henc. cbn [fmap option_fmap option_map]. fold doc.
    by rewrite Hrej.
  - intros f st0 Hfail. rewrite index_file_tracker. unfold completes.
    by rewrite (index_file_ok_indep self _ st0 f), Hfail.
Qed.

(** C9. The scan returns exactly the regular files of the tree whose name
    ends in ".json".  Its order is that of [os.walk]: the transcript files
    of a directory in listing order, followed by the scan of each entry in
    listing order; it is not sorted by path.  The decision taken for a file
    does not depend on its position: any reordering of the scan gives the
    same files to index, up to order. *)
Theorem scan_order_and_content (self : engine) (top : string) :
  (∀ p, p ∈ all_files top tree ↔
        ∃ name, tree_file top tree p name ∧ endswith name ".json" = true) ∧
  (∀ entries, tree = Dir entries →
     all_files top tree =
     json_files_of (top, dir_names entries, nondir_names entries) ++
     flat_map (λ e, all_files (join top [e.1]) e.2) entries) ∧
  (∀ scanned, scanned ≡ₚ all_files (context_json_dir self) tree →
     filter (λ f, _should_index_file self f = true) scanned ≡ₚ
     files_to_index self).
Proof.
  split; [|split].
  - intros p. split; [apply all_files_sound|].
    intros (name & Hf & Hj). by eapply all_files_complete.
  - intros entries ->. apply all_files_dir.
  - intros scanned Hperm. unfold files_to_index. by rewrite Hperm.
Qed.

End run.

(** *** A sample run *)


Lemma sync_dirty_policy_witness :
  es_calls (rerun sample_md5 sample_disk sample_source sample_json_load
              sample_encode accept_all (sample_engine false false ∅)
              None Written).1 = [].
Proof.
  apply (proj2 (proj2 (proj2 (sync_dirty_policy sample_md5 sample_disk
                                sample_source sample_json_load sample_encode
                                accept_all (sample_engine false false ∅))))
           None).
  - reflexivity.
  - reflexivity.
  - vm_compute. reflexivity.
Defined.

(** Three second runs over an unchanged tree that pass documents to the
    index again.  With the force flag the second run indexes every file
    again.  A file whose indexing was cut short (here: the index refuses the
    vectors) is indexed again.  And with the force flag off and every file
    indexed to its end, a save that failed goes unnoticed: the next engine
    loads what the file holds, here nothing, and indexes every file
    again. *)
Lemma sync_twice_resubmits :
  es_calls (rerun sample_md5 sample_disk sample_source sample_json_load
              sample_encode accept_all (sample_engine false true ∅)
              None Written).1 ≠ [] ∧
  es_calls (rerun sample_md5 sample_disk sample_source sample_json_load
              sample_encode dims_ok (sample_engine true false ∅)
              None Written).1 ≠ [] ∧
  (forallb (completes sample_md5 sample_disk sample_json_load sample_encode
              accept_all (sample_engine false false ∅))
           (files_to_index sample_md5 sample_disk sample_source
              (sample_engine false false ∅)) = true ∧
   es_calls (rerun sample_md5 sample_disk sample_source sample_json_load
               sample_encode accept_all (sample_engine false false ∅)
               None WriteInterrupted).1 =
   es_calls (_index_data sample_md5 sample_disk sample_source sample_json_load
               sample_encode accept_all (sample_engine false false ∅)).1 ∧
   es_calls (rerun sample_md5 sample_disk sample_source sample_json_load
               sample_encode accept_all (sample_engine false false ∅)
               None OpenFailed).1 ≠ []).
Proof.
  split; [vm_compute; discriminate|]. split; [vm_compute; discriminate|].
  split; [vm_compute; reflexivity|]. split; [vm_compute; reflexivity|].
  vm_compute; discriminate.
Qed.



Lemma no_dimension_check_witness :
  index_entries sample_encode dims_ok (sample_engine true false ∅)
    "data/K01/K01_V001.json" "K01_V001" 0 [sample_item] empty_state =
  ({| tracker := ∅;
      es_calls :=
        [ {| text := "xe o to"; start_frame := Some 100; end_frame := Some 120;
             start_sec := 4 # 1; end_sec := 5 # 1;
             file := "data/K01/K01_V001.json"; video_name := "K01_V001";
             L := 0; embedding := EmbVec [1 # 2; 1 # 3; 1 # 4] |} ];
      count := 0; indexed_count := 0 |}, false).
Proof.
  apply (proj1 (proj2 (no_dimension_check sample_md5 sample_disk
                         sample_json_load sample_encode dims_ok
                         (sample_engine true false ∅)
                         "data/K01/K01_V001.json" 0 sample_item [] empty_state
                         [1 # 2; 1 # 3; 1 # 4] eq_refl
                         ltac:(vm_compute; discriminate) eq_refl))).
  vm_compute. reflexivity.
Defined.

(** A vector of three components reaches the index call of a run whose
    index expects 768: nothing stops it before. *)
Lemma wrong_dimension_submitted :
  ¬ Forall (λ doc, dims_ok doc = true)
      (es_calls (_index_data sample_md5 sample_disk sample_source
                   sample_json_load sample_encode dims_ok
                   (sample_engine true false ∅)).1).
Proof.
  intros H. apply Forall_forall with (x :=
    {| text := "xin chao"; start_frame := Some 25; end_frame := Some 60;
       start_sec := 1; end_sec := 2 # 1; file := "data/z.json";
       video_name := "z"; L := 1;
       embedding := EmbVec [1 # 2; 1 # 3; 1 # 4] |}) in H.
  - vm_compute in H. discriminate.
  - vm_compute. left.
Qed.

Lemma scan_order_and_content_witness :
  "data/K01/K01_V001.json" ∈ all_files "data" sample_source ∧
  filter (λ f, _should_index_file sample_md5 sample_disk
                 (sample_engine false false ∅) f = true)
         ["data/K01/K01_V001.json"; "data/z.json"] ≡ₚ
  files_to_index sample_md5 sample_disk sample_source
    (sample_engine false false ∅).
Proof.
  pose proof (scan_order_and_content sample_md5 sample_disk sample_source
                (sample_engine false false ∅) "data") as (Hfiles & _ & Hperm).
  split.
  - apply Hfiles. exists "K01_V001.json". split; [|reflexivity].
    apply (tree_file_sub "data" _ "K01" [("K01_V001.json", File)]).
    + unfold sample_source. repeat constructor.
    + apply (tree_file_here "data/K01" _ "K01_V001.json"). constructor.
  - apply Hperm. apply perm_swap.
Defined.

(** The scan lists the files of a directory before those of its
    subdirectories, so its result is not in path order. *)
Lemma scan_not_sorted :
  all_files "data" sample_source = ["data/z.json"; "data/K01/K01_V001.json"] ∧
  ¬ Sorted String.le (all_files "data" sample_source).
Proof.
  split; [reflexivity|].
  intros H. change (all_files "data" sample_source)
    with ["data/z.json"; "data/K01/K01_V001.json"] in H.
  inversion H as [|? ? _ Hhd]. inversion Hhd as [|? ? Hle]. 
  vm_compute in Hle. done.
Qed.

End Sync.


(** ** The tracker file ([_save_indexed_files]) *)

Module Tracker.
Import PyStr.

Definition quote : ascii := "034"%char.
Definition backslash : ascii := "092"%char.

(** [json.encoder.py_encode_basestring], used when [ensure_ascii=False]:
    the quote, the backslash and the control characters are escaped. *)
Definition escape_char (a : ascii) : string :=
  let n := N_of_ascii a in
  if Ascii.eqb a quote then String backslash (String quote "")
  else if Ascii.eqb a backslash then String backslash (String backslash "")
  else if (n =? 8)%N then String backslash "b"
  else if (n =? 9)%N then String backslash "t"
  else if (n =? 10)%N then String backslash "n"
  else if (n =? 12)%N then String backslash "f"
  else if (n =? 13)%N then String backslash "r"
  else if (n <? 32)%N then String backslash ("u" +:+ hex_fixed 4 n)
  else String a "".

Fixpoint escape (s : string) : string :=
  match s with
  | "" => ""
  | String a s' => escape_char a +:+ escape s'
  end.

Definition encode_basestring (s : string) : string :=
  String quote (escape s) +:+ String quote "".

Definition newline : string := String "010"%char "".

(** The chunks [json.dump(mapping, f, ensure_ascii=False, indent=2)] writes
    for a dictionary from strings to strings, given as its items in
    iteration order. *)
Fixpoint item_chunks (first : bool) (items : list (string * string)) : list string :=
  match items with
  | [] => []
  | (k, v) :: rest =>
      (if first then [] else ["," +:+ newline +:+ "  "]) ++
      [encode_basestring k; ": "; encode_basestring v] ++
      item_chunks false rest
  end.

Definition json_chunks (items : list (string * string)) : list string :=
  match items with
  | [] => ["{}"]
  | _ => ["{"; newline +:+ "  "] ++ item_chunks true items ++ [newline; "}"]
  end.

Definition concat_chunks (chunks : list string) : string :=
  foldr String.append "" chunks.

Definition json_dumps (items : list (string * string)) : string :=
  concat_chunks (json_chunks items).

(** What happens to the tracker file, step by step: [open(path, "w")]
    creates the file or cuts it to length zero, then each chunk is appended.
    The content is [None] while the file does not exist. *)
Inductive file_op : Type :=
  | Truncate
  | Append (chunk : string).

Definition apply_op (content : option string) (op : file_op) : option string :=
  match op with
  | Truncate => Some ""
  | Append chunk => Some (default "" content +:+ chunk)
  end.

Definition save_ops (items : list (string * string)) : list file_op :=
  Truncate :: (Append <$> json_chunks items).

(** The file after the first [n] steps of a save, the state an
    interruption at that point leaves behind. *)
Definition interrupted_save (n : nat) (old : option string)
    (items : list (string * string)) : option string :=
  foldl apply_op old (firstn n (save_ops items)).

(** [_save_indexed_files]: when the file cannot be opened the exception is
    printed and the file stays as it was. *)
Definition _save_indexed_files (can_open : bool) (old : option string)
    (items : list (string * string)) : option string :=
  if can_open then foldl apply_op old (save_ops items) else old.

Definition sample_items : list (string * string) :=
  [("data/z.json", "00001607330f56817613199e2bee4be9")].

Lemma concat_chunks_app (l1 l2 : list string) :
  concat_chunks (l1 ++ l2) = concat_chunks l1 +:+ concat_chunks l2.
Proof.
  induction l1 as [|c l1 IH]; [done|].
  cbn [app concat_chunks foldr]. fold (concat_chunks (l1 ++ l2)).
  fold (concat_chunks l1). by rewrite IH, append_assoc.
Qed.

Lemma append_chunks (written : string) (chunks : list string) :
  foldl apply_op (Some written) (Append <$> chunks) =
  Some (written +:+ concat_chunks chunks).
Proof.
  revert written. induction chunks as [|c chunks IH]; intros written.
  - cbn. by rewrite append_empty_r.
  - cbn [fmap list_fmap foldl apply_op default]. rewrite IH.
    cbn [concat_chunks foldr]. fold (concat_chunks chunks).
    by rewrite append_assoc.
Qed.

Lemma interrupted_save_succ n old items :
  interrupted_save (S n) old items =
  Some (concat_chunks (firstn n (json_chunks items))).
Proof.
  unfold interrupted_save, save_ops. cbn [firstn foldl apply_op].
  rewrite <- fmap_take. by rewrite append_chunks.
Qed.

(** C8. [_save_indexed_files] writes the tracker in place.  Opening the
    file for writing empties it, so the former content is gone from the
    first step on; every later interruption leaves a prefix of the new JSON
    text, and only the completed save leaves the whole text.  When the file
    cannot be opened nothing is written. *)
Theorem save_in_place (old : option string) (items : list (string * string)) :
  interrupted_save 0 old items = old ∧
  interrupted_save 1 old items = Some "" ∧
  (∀ n, (1 ≤ n)%nat →
     ∃ written rest, interrupted_save n old items = Some written ∧
                     json_dumps items = written +:+ rest) ∧
  (∀ n, (length (save_ops items) ≤ n)%nat →
     interrupted_save n old items = Some (json_dumps items)) ∧
  _save_indexed_files true old items = Some (json_dumps items) ∧
  _save_indexed_files false old items = old.
Proof.
  split; [done|]. split; [by rewrite interrupted_save_succ|].
  split; [|split; [|split; [|done]]].
  - intros [|n] Hn; [lia|]. rewrite interrupted_save_succ.
    exists (concat_chunks (firstn n (json_chunks items))),
           (concat_chunks (skipn n (json_chunks items))).
    split; [done|]. unfold json_dumps.
    by rewrite <- concat_chunks_app, firstn_skipn.
  - intros [|n] Hn; [simpl in Hn; lia|]. rewrite interrupted_save_succ.
    unfold save_ops in Hn. cbn [length] in Hn. rewrite length_fmap in Hn.
    rewrite firstn_all2 by lia. done.
  - unfold _save_indexed_files, save_ops. cbn [foldl apply_op].
    by rewrite append_chunks.
Qed.

Lemma save_in_place_witness :
  ∃ written rest,
    interrupted_save 3 (Some "{}") sample_items = Some written ∧
    json_dumps sample_items = written +:+ rest.
Proof.
  apply (proj1 (proj2 (proj2 (save_in_place (Some "{}") sample_items)))).
  lia.
Defined.

(** An interruption right after the file was opened, or after the first
    chunks, leaves neither the former tracker nor the new one. *)
Lemma save_interrupted_truncated :
  interrupted_save 1 (Some (json_dumps [])) sample_items = Some "" ∧
  interrupted_save 1 (Some (json_dumps [])) sample_items ≠ Some (json_dumps []) ∧
  interrupted_save 1 (Some (json_dumps [])) sample_items ≠
    Some (json_dumps sample_items) ∧
  interrupted_save 2 (Some (json_dumps [])) sample_items = Some "{" ∧
  Some "{" ≠ Some (json_dumps []) ∧
  Some "{" ≠ Some (json_dumps sample_items).
Proof. repeat split; vm_compute; congruence. Qed.

End Tracker.

(** ** Retrieval ([search] and [search_with_frames]) *)

Module Search.
Import Keyframes.

(** The request bodies [search] sends to the index. *)
Record fuzzy_options : Type := FuzzyOptions {
  fuzziness : string;
  prefix_length : nat;
  max_expansions : nat
}.

Record knn_options : Type := KnnOptions {
  field : string;
  query_vector : list Q;
  knn_k : nat;
  num_candidates : nat
}.

Inductive request : Type :=
  | MatchRequest (size : nat) (query : string) (fuzzy : option fuzzy_options)
  | KnnRequest (size : nat) (knn : knn_options).

(** The fields of [self] read by a search. *)
Record retriever : Type := Retriever {
  use_semantic : bool;
  base_keyframe_dir : string
}.

(** A hit after [search_with_frames] added ["frames"] and ["num_frames"]. *)
Record framed : Type := Framed {
  source : document;
  frames : list string;
  num_frames : nat
}.

(** An index that answers keyword requests and fails on vector requests. *)
Definition keyword_only_index (req : request) : option (list document) :=
  match req with
  | MatchRequest _ _ _ => Some [sample_entry]
  | KnnRequest _ _ => None
  end.

Definition sample_query_vector (_ : string) : option (list Q) :=
  Some [1 # 2; 1 # 3; 1 # 4].

Definition failing_encode (_ : string) : option (list Q) := None.

Section search.

(** The collaborators of one call:
    - [es_search]: the [_source] of the hits the index returns for a
      request, [None] when [self.es.search] raises;
    - [encode]: [self.model.encode(query).tolist()], [None] when it raises;
    - [fs]: the keyframe tree. *)
Variable es_search : request → option (list document).
Variable encode : string → option (list Q).
Variable fs : keyframe_tree.

Definition keyword_query (query : string) (k : nat) (use_fuzzy : bool) : request :=
  if use_fuzzy then
    MatchRequest k query
      (Some {| fuzziness := "AUTO"; prefix_length := 1; max_expansions := 50 |})
  else MatchRequest k query None.

Definition semantic_query (query_vec : list Q) (k : nat) : request :=
  KnnRequest k
    {| field := "embedding"; query_vector := query_vec; knn_k := k;
       num_candidates := 100 |}.

(** [None] stands for an exception that leaves [search]. *)
Definition search (self : retriever) (query : string) (k : nat)
    (use_fuzzy : bool) : option (gmap string (list document)) :=
  let results : gmap string (list document) := ∅ in
  hits ← es_search (keyword_query query k use_fuzzy);
  let results := <["keyword" := hits]> results in
  if use_semantic self then
    query_vec ← encode query;
    match es_search (semantic_query query_vec k) with
    | Some hits => Some (<["semantic" := hits]> results)
    | None => Some (<["semantic" := []]> results)
    end
  else Some results.

(** The body of the inner loop of [search_with_frames]; [None] when
    [list_keyframes_in_range] raises, for which there is no handler. *)
Definition add_frames (self : retriever) (r : document) : option framed :=
  match list_keyframes_in_range fs r (base_keyframe_dir self) with
  | Returns frames =>
      Some {| source := r; frames := frames; num_frames := length frames |}
  | Raises _ => None
  end.

(** One turn of [for mode in ["semantic", "keyword"]]. *)
Definition frames_of_mode (self : retriever)
    (results : gmap string (list document))
    (output : gmap string (list framed)) (mode : string)
    : option (gmap string (list framed)) :=
  annotated ← mapM (add_frames self) (default [] (results !! mode));
  Some (<[mode := annotated]> output).

(** [None] stands for an exception that leaves [search_with_frames]: one
    that left [search], or one raised by the keyframe lookup of a hit. *)
Definition search_with_frames (self : retriever) (query : string) (k : nat)
    (use_fuzzy : bool) : option (gmap string (list framed)) :=
  results ← search self query k use_fuzzy;
  output ← frames_of_mode self results ∅ "semantic";
  frames_of_mode self results output "keyword".

(** The two shapes of result met when vector search is disabled. *)
Definition keyword_only (hits : list document) : gmap string (list document) :=
  {["keyword" := hits]}.

Definition both_modes (self : retriever) (hits : list document)
    : option (gmap string (list framed)) :=
  annotated ← mapM (add_frames self) hits;
  Some (<["keyword" := annotated]> {["semantic" := []]}).

(** C6. With vector search enabled, once the keyword request has been
    answered and the query has been embedded, a failure of the vector
    request is caught: the result maps ["semantic"] to the empty list and
    ["keyword"] to the hits of the keyword request, unchanged. *)
Theorem vector_request_failure_caught (self : retriever) (query : string)
    (k : nat) (use_fuzzy : bool) (hits : list document) (query_vec : list Q) :
  use_semantic self = true →
  es_search (keyword_query query k use_fuzzy) = Some hits →
  encode query = Some query_vec →
  es_search (semantic_query query_vec k) = None →
  ∃ results,
    search self query k use_fuzzy = Some results ∧
    results !! "semantic" = Some [] ∧
    results !! "keyword" = Some hits ∧
    dom results = ({["keyword"; "semantic"]} : gset string).
Proof.
  intros Hsem Hkw Henc Hknn. unfold search.
  rewrite Hkw. cbn [mbind option_bind]. rewrite Hsem, Henc.
  cbn [mbind option_bind]. rewrite Hknn.
  eexists. split; [done|]. split; [|split].
  - by rewrite lookup_insert_eq.
  - rewrite lookup_insert_ne by done. by rewrite lookup_insert_eq.
  - rewrite !dom_insert_L, dom_empty_L. set_solver.
Qed.

(** C10. With vector search disabled, [search] raises exactly when the
    keyword request does, and otherwise returns a dictionary whose only key
    is ["keyword"]; [search_with_frames] then attaches the frames of each
    keyword hit and, when it returns, returns a dictionary with the two keys
    ["semantic"] and ["keyword"], the first bound to the empty list and the
    second to the keyword hits with their frames. *)
Theorem disabled_semantic_keys (base : string) (query : string) (k : nat)
    (use_fuzzy : bool) :
  let self := {| use_semantic := false; base_keyframe_dir := base |} in
  search self query k use_fuzzy =
    keyword_only <$> es_search (keyword_query query k use_fuzzy) ∧
  search_with_frames self query k use_fuzzy =
    es_search (keyword_query query k use_fuzzy) ≫= both_modes self ∧
  (∀ results, search self query k use_fuzzy = Some results →
     dom results = ({["keyword"]} : gset string) ∧
     results !! "semantic" = None) ∧
  (∀ output, search_with_frames self query k use_fuzzy = Some output →
     dom output = ({["semantic"; "keyword"]} : gset string) ∧
     output !! "semantic" = Some []).
Proof.
  intros self.
  assert (search self query k use_fuzzy =
          keyword_only <$>
            es_search (keyword_query query k use_fuzzy)) as Hsearch.
  { unfold search. by destruct (es_search _). }
  assert (search_with_frames self query k use_fuzzy =
          es_search (keyword_query query k use_fuzzy) ≫= both_modes self)
    as Hframes.
  { unfold search_with_frames. rewrite Hsearch.
    destruct (es_search _) as [hits|]; [|done].
    cbn [fmap option_fmap option_map mbind option_bind].
    unfold frames_of_mode, keyword_only, both_modes.
    rewrite lookup_singleton_eq, (lookup_singleton_ne "keyword" "semantic") by done.
    cbn [default mapM mbind option_bind]. unfold id.
    destruct (mapM (add_frames self) hits) as [annotated|]; [|done].
    cbn [mbind option_bind mret option_ret]. by rewrite insert_empty. }
  split; [done|]. split; [done|]. split.
  - intros results. rewrite Hsearch.
    destruct (es_search _) as [hits|]; [|done]. intros [= <-].
    unfold keyword_only.
    split; [by rewrite dom_singleton_L|]. by rewrite lookup_singleton_ne.
  - intros output. rewrite Hframes.
    destruct (es_search _) as [hits|]; [|done].
    cbn [mbind option_bind]. unfold both_modes.
    destruct (mapM (add_frames self) hits) as [annotated|]; [|done].
    intros [= <-]. split.
    + rewrite dom_insert_L, dom_singleton_L. set_solver.
    + rewrite lookup_insert_ne by done. by rewrite lookup_singleton_eq.
Qed.

End search.

Lemma vector_request_failure_caught_witness :
  ∃ results,
    search keyword_only_index sample_query_vector
      {| use_semantic := true; base_keyframe_dir := "/data/keyframes" |}
      "xe o to" 3 false = Some results ∧
    results !! "semantic" = Some [] ∧
    results !! "keyword" = Some [sample_entry] ∧
    dom results = ({["keyword"; "semantic"]} : gset string).
Proof.
  apply (vector_request_failure_caught keyword_only_index sample_query_vector
           {| use_semantic := true; base_keyframe_dir := "/data/keyframes" |}
           "xe o to" 3 false [sample_entry] [1 # 2; 1 # 3; 1 # 4]);
    reflexivity.
Defined.

(** The query is embedded outside the [try] block: when the embedding
    raises, the exception leaves [search] and the keyword hits already
    fetched are not returned. *)
Lemma embedding_failure_not_caught :
  keyword_only_index (keyword_query "xe o to" 3 false) = Some [sample_entry] ∧
  failing_encode "xe o to" = None ∧
  search keyword_only_index failing_encode
    {| use_semantic := true; base_keyframe_dir := "/data/keyframes" |}
    "xe o to" 3 false = None.
Proof. repeat split. Qed.

Lemma disabled_semantic_keys_witness :
  search keyword_only_index sample_query_vector
    {| use_semantic := false; base_keyframe_dir := "/data/keyframes" |}
    "xe o to" 3 true = Some {["keyword" := [sample_entry]]} ∧
  ∃ output,
    search_with_frames keyword_only_index sample_query_vector sample_tree
      {| use_semantic := false; base_keyframe_dir := "/data/keyframes" |}
      "xe o to" 3 true = Some output ∧
    dom output = ({["semantic"; "keyword"]} : gset string) ∧
    output !! "semantic" = Some [] ∧
    output !! "keyword" =
      Some [ {| source := sample_entry;
                frames := ["/data/keyframes/K01/K01_V001/105.jpg"];
                num_frames := 1 |} ].
Proof.
  pose proof (disabled_semantic_keys keyword_only_index sample_query_vector
                sample_tree "/data/keyframes" "xe o to" 3 true)
    as (Hsearch & Hframes & _ & Hkeys).
  split; [exact Hsearch|].
  assert (keyword_only_index (keyword_query "xe o to" 3 true) ≫=
            both_modes sample_tree
              {| use_semantic := false; base_keyframe_dir := "/data/keyframes" |} =
          Some (<["keyword" :=
                    [ {| source := sample_entry;
                         frames := ["/data/keyframes/K01/K01_V001/105.jpg"];
                         num_frames := 1 |} ]]> {["semantic" := []]}))
    as Hvalue by (vm_compute; reflexivity).
  rewrite Hvalue in Hframes.
  eexists. split; [exact Hframes|].
  destruct (Hkeys _ Hframes) as [Hdom Hsem].
  split; [exact Hdom|]. split; [exact Hsem|].
  apply lookup_insert_eq.
Defined.

End Search.

(** ** Export of an index to batch files ([export_index_to_files]) *)

Module ExportIndex.
Import PyStr PosixPath.
Local Open Scope nat_scope.

(** *** [f"batch_{batch_num:04d}.json"] *)

Definition dec_digit (n : nat) : ascii := ascii_of_nat (48 + n mod 10).

(** The last [width] decimal digits of [n]. *)
Fixpoint dec_fixed (width : nat) (n : nat) : string :=
  match width with
  | O => ""
  | S w => dec_fixed w (n / 10) +:+ String (dec_digit n) ""
  end.

(** The number of decimal digits of [n]; [fuel] bounds the recursion. *)
Fixpoint ndigits_go (fuel n : nat) : nat :=
  match fuel with
  | O => 1
  | S f => if n <? 10 then 1 else S (ndigits_go f (n / 10))
  end.
Definition ndigits (n : nat) : nat := ndigits_go n n.

(** [format(n, "04d")]: decimal, padded with zeros to four digits. *)
Definition format_04d (n : nat) : string := dec_fixed (max 4 (ndigits n)) n.

Definition batch_name (batch_num : nat) : string :=
  "batch_" +:+ format_04d batch_num +:+ ".json".

(** *** The index as the export sees it *)

Record es_index : Type := EsIndex {
  mapping : string;
  docs : list document
}.

(** [ping] is the answer of [es.ping()]; [indices] holds the existing
    indices. *)
Record es_server : Type := EsServer {
  ping : bool;
  indices : gmap string es_index
}.

(** A scroll over an index that receives no write: each page holds the next
    [size] documents, the last page is followed by empty pages.  The index
    refuses a scroll of size zero; the statements below take a size of at
    least one. *)
Definition scroll_page (size : nat) (cursor : list document)
    : list document * list document :=
  (firstn size cursor, skipn size cursor).

Record metadata : Type := Metadata {
  index_name : string;
  total_documents : nat;
  total_batches : nat;
  batch_size : nat;
  note : string
}.

Record export_files : Type := ExportFiles {
  mapping_file : string * string;
  batch_files : list (string * list document);
  metadata_file : string * metadata
}.

(** [if 'embedding' in doc: doc['embedding'] = None] *)
Definition drop_embedding (doc : document) : document :=
  {| text := text doc; start_frame := start_frame doc;
     end_frame := end_frame doc; start_sec := start_sec doc;
     end_sec := end_sec doc; file := file doc;
     video_name := video_name doc; L := L doc;
     embedding := match embedding doc with
                  | EmbAbsent => EmbAbsent
                  | _ => EmbNull
                  end |}.

(** [doc.get('embedding')]: [None] for a missing key and for [null]. *)
Definition get_embedding (doc : document) : option (list Q) :=
  match embedding doc with
  | EmbVec v => Some v
  | _ => None
  end.

Record loop_state : Type := LoopState {
  batch_num : nat;
  exported : nat;
  written : list (string * list document)
}.

(** The [while hits:] loop.  Each turn writes one batch file and fetches the
    next page; [None] means that [fuel] turns were not enough. *)
Fixpoint export_loop (fuel : nat) (output_dir : string) (size : nat)
    (hits cursor : list document) (st : loop_state) : option loop_state :=
  match hits with
  | [] => Some st
  | _ :: _ =>
      match fuel with
      | O => None
      | S fuel' =>
          let batch_file := join output_dir [batch_name (batch_num st)] in
          let batch_data := drop_embedding <$> hits in
          let '(hits', cursor') := scroll_page size cursor in
          export_loop fuel' output_dir size hits' cursor'
            {| batch_num := S (batch_num st);
               exported := exported st + length hits;
               written := written st ++ [(batch_file, batch_data)] |}
      end
  end.

(** [None] stands for the two early returns (no connection, no such index)
    and for a loop that ran out of fuel, which never happens (see
    [export_loop_total]). *)
Definition export_index_to_files (es : es_server) (index_name : string)
    (output_dir : string) (batch_size : nat) : option export_files :=
  if negb (ping es) then None
  else
    idx ← indices es !! index_name;
    let mapping_file := (join output_dir ["mapping.json"], mapping idx) in
    let total_docs := length (docs idx) in
    let '(hits, cursor) := scroll_page batch_size (docs idx) in
    st ← export_loop (length (docs idx)) output_dir batch_size hits cursor
           {| batch_num := 0; exported := 0; written := [] |};
    Some {| mapping_file := mapping_file;
            batch_files := written st;
            metadata_file :=
              (join output_dir ["metadata.json"],
               {| index_name := index_name;
                  total_documents := total_docs;
                  total_batches := batch_num st;
                  batch_size := batch_size;
                  note := "embedding=None will be regenerated on import" |}) |}.

(** The number of pages of [size] documents needed for [n] documents. *)
Definition ceil_div (n size : nat) : nat := (n + size - 1) / size.

Definition sample_doc (n : nat) : document :=
  {| text := "xe o to"; start_frame := Some 100%Z; end_frame := Some 120%Z;
     start_sec := 4 # 1; end_sec := 5 # 1;
     file := "data/K01/K01_V001.json"; video_name := "K01_V001"; L := n;
     embedding := if Nat.even n then EmbVec [1 # 2; 1 # 3] else EmbAbsent |}.

Definition sample_server (n : nat) : es_server :=
  {| ping := true;
     indices := {[ "speech_index" :=
                     {| mapping := "{}"; docs := sample_doc <$> seq 0 n |} ]} |}.

(** *** Batch file names are pairwise distinct *)

Lemma dec_fixed_length width n : String.length (dec_fixed width n) = width.
Proof.
  revert n. induction width as [|w IH]; intros n; [done|].
  cbn [dec_fixed]. rewrite length_append, IH. simpl. lia.
Qed.

Lemma dec_digit_inj n m : dec_digit n = dec_digit m → n mod 10 = m mod 10.
Proof.
  unfold dec_digit. intros H.
  apply (f_equal nat_of_ascii) in H.
  pose proof (Nat.mod_upper_bound n 10) as Hn.
  pose proof (Nat.mod_upper_bound m 10) as Hm.
  rewrite !nat_ascii_embedding in H by lia. lia.
Qed.

Lemma dec_fixed_inj width n m :
  n < 10 ^ width → m < 10 ^ width →
  dec_fixed width n = dec_fixed width m → n = m.
Proof.
  revert n m. induction width as [|w IH]; intros n m Hn Hm H.
  - simpl in Hn, Hm. lia.
  - cbn [dec_fixed] in H. apply snoc_inj in H as [Hhigh Hlow].
    apply dec_digit_inj in Hlow.
    rewrite Nat.pow_succ_r' in Hn, Hm.
    apply IH in Hhigh.
    + rewrite (Nat.div_mod_eq n 10), (Nat.div_mod_eq m 10). lia.
    + apply Nat.Div0.div_lt_upper_bound. lia.
    + apply Nat.Div0.div_lt_upper_bound. lia.
Qed.

Lemma ndigits_go_bound fuel n : n ≤ fuel → n < 10 ^ ndigits_go fuel n.
Proof.
  revert n. induction fuel as [|f IH]; intros n Hn.
  - simpl. lia.
  - cbn [ndigits_go]. destruct (Nat.ltb_spec n 10) as [Hlt|Hge].
    + simpl. lia.
    + rewrite Nat.pow_succ_r'.
      assert (n / 10 < 10 ^ ndigits_go f (n / 10)) as Hrec.
      { apply IH. apply Nat.lt_succ_r.
        apply Nat.le_lt_trans with (m := n / 10 * 2); [lia|].
        pose proof (Nat.div_mod_eq n 10). lia. }
      pose proof (Nat.div_mod_eq n 10) as Hdm.
      pose proof (Nat.mod_upper_bound n 10). lia.
Qed.

Lemma format_04d_inj n m : format_04d n = format_04d m → n = m.
Proof.
  unfold format_04d. intros H.
  assert (max 4 (ndigits n) = max 4 (ndigits m)) as Hw.
  { apply (f_equal String.length) in H. by rewrite !dec_fixed_length in H. }
  rewrite <- Hw in H. apply dec_fixed_inj in H; [done|..].
  - apply Nat.lt_le_trans with (m := 10 ^ ndigits n).
    + by apply ndigits_go_bound.
    + apply Nat.pow_le_mono_r; lia.
  - rewrite Hw. apply Nat.lt_le_trans with (m := 10 ^ ndigits m).
    + by apply ndigits_go_bound.
    + apply Nat.pow_le_mono_r; lia.
Qed.

Lemma batch_name_inj n m : batch_name n = batch_name m → n = m.
Proof.
  unfold batch_name. intros H.
  apply (inj (String.app "batch_")) in H.
  apply append_inj_r in H. by apply format_04d_inj.
Qed.

Lemma batch_path_inj output_dir n m :
  join output_dir [batch_name n] = join output_dir [batch_name m] → n = m.
Proof.
  unfold join. cbn [foldl]. unfold join2.
  change (startswith (batch_name n) (String sep "")) with false.
  change (startswith (batch_name m) (String sep "")) with false.
  cbv iota. intros H. apply batch_name_inj.
  destruct (String.eqb output_dir "" || endswith output_dir (String sep "")).
  - by apply (inj (String.app output_dir)) in H.
  - apply (inj (String.app output_dir)) in H.
    by apply (inj (String.app (String sep ""))) in H.
Qed.

(** *** The loop *)

Lemma ceil_div_zero size : 1 ≤ size → ceil_div 0 size = 0.
Proof. intros H. unfold ceil_div. apply Nat.div_small. lia. Qed.

Lemma ceil_div_step n size :
  1 ≤ size → 1 ≤ n → ceil_div n size = S (ceil_div (n - size) size).
Proof.
  intros Hs Hn. unfold ceil_div.
  destruct (Nat.le_gt_cases n size) as [Hle|Hgt].
  - replace (n - size) with 0 by lia.
    rewrite (Nat.div_small (0 + size - 1)) by lia.
    symmetry. apply Nat.div_unique with (r := n - 1); lia.
  - replace (n + size - 1) with ((n - size + size - 1) + 1 * size) by lia.
    rewrite Nat.div_add by lia. lia.
Qed.

Lemma sum_lengths_concat {A} (ls : list (list A)) :
  sum_list (length <$> ls) = length (concat ls).
Proof.
  induction ls as [|l ls IH]; [done|].
  cbn [fmap list_fmap sum_list sum_list_with concat].
  rewrite length_app. simpl in IH. by rewrite <- IH.
Qed.

Lemma export_loop_spec fuel output_dir size all st :
  1 ≤ size → length all ≤ fuel →
  ∃ new,
    export_loop fuel output_dir size (firstn size all) (skipn size all) st =
      Some {| batch_num := batch_num st + length new;
              exported := exported st + length all;
              written := written st ++ new |} ∧
    length new = ceil_div (length all) size ∧
    concat new.*2 = drop_embedding <$> all ∧
    new.*1 = (λ i, join output_dir [batch_name i]) <$> seq (batch_num st) (length new) ∧
    Forall (λ b, 1 ≤ length b.2 ≤ size) new.
Proof.
  intros Hsize. revert all st.
  induction fuel as [|fuel IH]; intros all st Hfuel.
  - destruct all as [|d all]; [|simpl in Hfuel; lia].
    exists []. rewrite firstn_nil. cbn [export_loop].
    rewrite ceil_div_zero by done. destruct st; cbn.
    by rewrite !Nat.add_0_r, app_nil_r.
  - destruct all as [|d all].
    + exists []. rewrite firstn_nil. cbn [export_loop].
      rewrite ceil_div_zero by done. destruct st; cbn.
      by rewrite !Nat.add_0_r, app_nil_r.
    + destruct size as [|size']; [lia|].
      set (size := S size') in *. set (all0 := d :: all) in *.
      assert (firstn size all0 = d :: firstn size' all) as Hhead by done.
      rewrite Hhead. cbn [export_loop scroll_page]. rewrite <- Hhead.
      edestruct (IH (skipn size all0)) as (new & Hloop & Hlen & Hdocs & Hnames & Hsizes).
      { rewrite length_drop. unfold all0 in *. simpl in *. lia. }
      rewrite Hloop. cbn [batch_num exported written].
      set (this := (join output_dir [batch_name (batch_num st)],
                    drop_embedding <$> firstn size all0)).
      exists (this :: new). split; [|split; [|split; [|split]]].
      * f_equal. f_equal.
        -- simpl. lia.
        -- rewrite length_drop, length_take. unfold all0. simpl. lia.
        -- by rewrite <- app_assoc.
      * cbn [length]. rewrite Hlen, length_drop.
        symmetry. apply ceil_div_step; [done|]. unfold all0. simpl. lia.
      * cbn [fmap list_fmap concat snd this]. fold (@fmap list _ _ _ snd new).
        rewrite Hdocs, <- fmap_app. by rewrite firstn_skipn.
      * cbn [fmap list_fmap fst this length seq].
        fold (@fmap list _ _ _ fst new). by rewrite Hnames.
      * constructor; [|done]. cbn [snd this].
        rewrite length_fmap, length_take. unfold all0. simpl. lia.
Qed.

(** The loop always ends within [length docs] turns. *)
Lemma export_loop_total output_dir size (all : list document) st :
  1 ≤ size →
  is_Some (export_loop (length all) output_dir size
             (firstn size all) (skipn size all) st).
Proof.
  intros Hsize.
  destruct (export_loop_spec (length all) output_dir size all st Hsize (le_n _))
    as (new & -> & _). by eexists.
Qed.

(** C4. An export of an existing index that receives no write during the
    run, with a batch size of at least one, writes a metadata record whose
    [total_documents] is the sum of the sizes of the batch files and whose
    [total_batches] is their number; the batch files have pairwise distinct
    paths and hold the documents of the index in order, each with its
    [embedding] reading as [None].  For 2500 documents and a batch size of
    1000 there are exactly three batch files and the metadata records 2500
    documents and 3 batches. *)
Theorem export_metadata_invariant (es : es_server) (name output_dir : string)
    (size : nat) (idx : es_index) :
  ping es = true →
  indices es !! name = Some idx →
  1 ≤ size →
  ∃ out,
    export_index_to_files es name output_dir size = Some out ∧
    let meta := (metadata_file out).2 in
    total_documents meta = sum_list (length <$> (batch_files out).*2) ∧
    total_batches meta = length (batch_files out) ∧
    NoDup (batch_files out).*1 ∧
    concat (batch_files out).*2 = drop_embedding <$> docs idx ∧
    (∀ path batch doc,
       (path, batch) ∈ batch_files out → doc ∈ batch →
       get_embedding doc = None) ∧
    (length (docs idx) = 2500 → size = 1000 →
     length (batch_files out) = 3 ∧
     total_documents meta = 2500 ∧ total_batches meta = 3).
Proof.
  intros Hping Hidx Hsize.
  destruct (export_loop_spec (length (docs idx)) output_dir size (docs idx)
              {| batch_num := 0; exported := 0; written := [] |} Hsize (le_n _))
    as (new & Hloop & Hlen & Hdocs & Hnames & _).
  unfold export_index_to_files. rewrite Hping, Hidx.
  cbn [negb mbind option_bind scroll_page]. rewrite Hloop.
  cbn [mbind option_bind batch_num written app Nat.add].
  eexists. split; [reflexivity|].
  cbn [metadata_file batch_files snd total_documents total_batches].
  split; [|split; [|split; [|split; [|split]]]].
  - by rewrite sum_lengths_concat, Hdocs, length_fmap.
  - done.
  - rewrite Hnames. apply NoDup_fmap_2_strong; [|apply NoDup_seq].
    intros i j _ _. apply batch_path_inj.
  - done.
  - intros path batch doc Hbatch Hdoc.
    assert (doc ∈ concat new.*2) as Hin.
    { apply list_elem_of_In, in_concat. exists batch.
      split; apply list_elem_of_In; [|done].
      apply list_elem_of_fmap. by exists (path, batch). }
    rewrite Hdocs in Hin. apply list_elem_of_fmap in Hin as (src & -> & _).
    unfold get_embedding, drop_embedding. cbn [embedding].
    by destruct (embedding src).
  - intros Hn ->. rewrite Hlen, Hn. by vm_compute.
Qed.

Lemma export_metadata_invariant_witness :
  ∃ out,
    export_index_to_files (sample_server 2500) "speech_index"
      "elasticsearch_data" 1000 = Some out ∧
    length (batch_files out) = 3 ∧
    total_documents (metadata_file out).2 = 2500 ∧
    total_batches (metadata_file out).2 = 3.
Proof.
  destruct (export_metadata_invariant (sample_server 2500) "speech_index"
              "elasticsearch_data" 1000
              {| mapping := "{}"; docs := sample_doc <$> seq 0 2500 |}
              eq_refl eq_refl ltac:(lia))
    as (out & Hout & _ & _ & _ & _ & _ & Hexample).
  exists out. split; [exact Hout|].
  apply Hexample; [|reflexivity].
  cbn [docs]. by rewrite length_fmap, length_seq.
Defined.

End ExportIndex.

(** ** Import of batch files into an index ([import_index_from_files]) *)

Module ImportIndex.
Import PyStr ExportIndex.
Local Open Scope nat_scope.

(** The exported directory as the import reads it. *)
Record import_source : Type := ImportSource {
  input_dir_exists : bool;
  metadata_json : option metadata;
  mapping_json : option string;
  batch_json : nat → option (list document)
}.

Record report : Type := Report {
  imported : nat;
  errors : nat;
  final_count : nat;
  count_matches : bool
}.

(** How a call ends: one of the early returns, an exception that leaves
    the function, or the final summary. *)
Inductive outcome : Type :=
  | MissingInputDir
  | NotConnected
  | MissingMetadata
  | Raised
  | Cancelled
  | Finished (r : report).

Definition sample_metadata : metadata :=
  {| index_name := "speech_index"; total_documents := 3;
     total_batches := 1; batch_size := 1000;
     note := "embedding=None will be regenerated on import" |}.

Definition sample_export : import_source :=
  {| input_dir_exists := true;
     metadata_json := Some sample_metadata;
     mapping_json := Some "{}";
     batch_json := λ n,
       match n with
       | O => Some (drop_embedding <$> (sample_doc <$> seq 0 3))
       | S _ => None
       end |}.

Definition sample_encode (_ : string) : option (list Q) := Some [1 # 2; 1 # 3].

Section import.

(** The collaborators of one call:
    - [response]: the line [input()] returns when the user is asked;
    - [encode]: [model.encode(text).tolist()], [None] when it raises;
    - [bulk_accepts]: whether the bulk call stores the document;
    - [bulk_raises]: whether the bulk call of a batch raises. *)
Variable response : string.
Variable encode : string → option (list Q).
Variable bulk_accepts : document → bool.
Variable bulk_raises : nat → bool.

(** The body of [for doc in batch_data] up to the action list. *)
Definition prepare (regenerate_embeddings : bool) (doc : document)
    : option document :=
  match get_embedding doc with
  | None =>
      if regenerate_embeddings && negb (String.eqb (text doc) "") then
        v ← encode (text doc);
        Some {| text := text doc; start_frame := start_frame doc;
                end_frame := end_frame doc; start_sec := start_sec doc;
                end_sec := end_sec doc; file := file doc;
                video_name := video_name doc; L := L doc;
                embedding := EmbVec v |}
      else Some doc
  | Some _ => Some doc
  end.

Record import_state : Type := ImportState {
  stored : list document;
  imported_so_far : nat;
  errors_so_far : nat
}.

(** One turn of [for batch_num in range(total_batches)]; [None] when
    [encode] raises. *)
Definition import_batch (src : import_source) (regenerate_embeddings : bool)
    (st : import_state) (batch_num : nat) : option import_state :=
  match batch_json src batch_num with
  | None => Some st
  | Some batch_data =>
      actions ← mapM (prepare regenerate_embeddings) batch_data;
      if bulk_raises batch_num then
        Some {| stored := stored st; imported_so_far := imported_so_far st;
                errors_so_far := errors_so_far st + length actions |}
      else
        let ok := filter (λ d, bulk_accepts d = true) actions in
        let failed := filter (λ d, bulk_accepts d = false) actions in
        Some {| stored := stored st ++ ok;
                imported_so_far := imported_so_far st + length ok;
                errors_so_far := errors_so_far st + length failed |}
  end.

Fixpoint import_batches (src : import_source) (regenerate_embeddings : bool)
    (st : import_state) (batch_nums : list nat) : import_state * bool :=
  match batch_nums with
  | [] => (st, true)
  | n :: rest =>
      match import_batch src regenerate_embeddings st n with
      | Some st' => import_batches src regenerate_embeddings st' rest
      | None => (st, false)
      end
  end.

Definition with_index (es : es_server) (name : string) (idx : option es_index)
    : es_server :=
  {| ping := ping es;
     indices := match idx with
                | Some i => <[name := i]> (indices es)
                | None => delete name (indices es)
                end |}.

(** From [es.indices.create] to the end of the function. *)
Definition create_and_load (es : es_server) (src : import_source)
    (regenerate_embeddings : bool) (name original_mapping : string)
    (total_docs total_batches : nat) : outcome * es_server :=
  let created :=
    with_index es name (Some {| mapping := original_mapping; docs := [] |}) in
  let '(st, ok) :=
    import_batches src regenerate_embeddings
      {| stored := []; imported_so_far := 0; errors_so_far := 0 |}
      (seq 0 total_batches) in
  let loaded :=
    with_index created name
      (Some {| mapping := original_mapping; docs := stored st |}) in
  if ok then
    (Finished {| imported := imported_so_far st;
                 errors := errors_so_far st;
                 final_count := length (stored st);
                 count_matches := length (stored st) =? total_docs |}, loaded)
  else (Raised, loaded).

Definition import_index_from_files (es : es_server) (src : import_source)
    (regenerate_embeddings : bool) : outcome * es_server :=
  if negb (input_dir_exists src) then (MissingInputDir, es)
  else if negb (ping es) then (NotConnected, es)
  else
    match metadata_json src with
    | None => (MissingMetadata, es)
    | Some meta =>
        let name := index_name meta in
        let total_docs := total_documents meta in
        let total_batches := total_batches meta in
        match mapping_json src with
        | None => (Raised, es)
        | Some original_mapping =>
            match indices es !! name with
            | Some _ =>
                if negb (String.eqb (lower response) "yes") then (Cancelled, es)
                else
                  create_and_load (with_index es name None) src
                    regenerate_embeddings name original_mapping
                    total_docs total_batches
            | None =>
                create_and_load es src regenerate_embeddings name
                  original_mapping total_docs total_batches
            end
        end
    end.

(** C5. An index that exists before the call is still there, with the same
    mapping and documents, after any call in which the answer to the
    confirmation prompt is not "yes" in some letter case: such a call
    deletes nothing and creates nothing over it.  When the target index of
    the import exists and the answer is not "yes", the call ends as
    cancelled and the whole server is as before. *)
Theorem import_needs_confirmation (es : es_server) (src : import_source)
    (regenerate_embeddings : bool) :
  lower response ≠ "yes" →
  (∀ name old,
     indices es !! name = Some old →
     indices (import_index_from_files es src regenerate_embeddings).2 !! name
       = Some old) ∧
  (∀ meta original_mapping old,
     input_dir_exists src = true → ping es = true →
     metadata_json src = Some meta →
     mapping_json src = Some original_mapping →
     indices es !! index_name meta = Some old →
     import_index_from_files es src regenerate_embeddings = (Cancelled, es)).
Proof.
  intros Hno. apply String.eqb_neq in Hno. split.
  - intros name old Hold. unfold import_index_from_files.
    destruct (input_dir_exists src); [|done].
    destruct (ping es); [|done]. cbn [negb].
    destruct (metadata_json src) as [meta|]; [|done].
    destruct (mapping_json src) as [original_mapping|]; [|done].
    destruct (indices es !! index_name meta) as [target|] eqn:Htarget.
    + by rewrite Hno.
    + unfold create_and_load.
      destruct (import_batches _ _ _ _) as [st ok].
      assert (name ≠ index_name meta) as Hne by congruence.
      destruct ok; cbn [snd with_index indices];
        by rewrite lookup_insert_ne, lookup_insert_ne.
  - intros meta original_mapping old Hdir Hping Hmeta Hmap Hold.
    unfold import_index_from_files.
    by rewrite Hdir, Hping, Hmeta, Hmap, Hold, Hno.
Qed.

End import.

(** Pressing return at the prompt is a refusal. *)
Lemma import_needs_confirmation_witness :
  import_index_from_files "" sample_encode (λ _, true) (λ _, false)
    (sample_server 2) sample_export true = (Cancelled, sample_server 2).
Proof.
  apply (proj2 (import_needs_confirmation "" sample_encode (λ _, true)
                  (λ _, false) (sample_server 2) sample_export true
                  ltac:(discriminate))
           sample_metadata "{}"
           {| mapping := "{}"; docs := sample_doc <$> seq 0 2 |});
    reflexivity.
Defined.

End ImportIndex.

(** ** Further properties of the indexing run *)

Module SyncProps.
Import PyStr PosixPath Walk Sync.

Section run_props.

Variable md5 : string → string.
Variable disk : gmap string string.
Variable tree : node.
Variable json_load : string → option (list item).
Variable encode : string → option (list Q).
Variable es_index_ok : document → bool.

Local Abbreviation get_file_hash := (Sync.get_file_hash md5 disk).
Local Abbreviation _should_index_file := (Sync._should_index_file md5 disk).
Local Abbreviation index_entries := (Sync.index_entries encode es_index_ok).
Local Abbreviation index_file :=
  (Sync.index_file md5 disk json_load encode es_index_ok).
Local Abbreviation files_to_index := (Sync.files_to_index md5 disk tree).
Local Abbreviation _index_data :=
  (Sync._index_data md5 disk tree json_load encode es_index_ok).
Local Abbreviation rerun :=
  (Sync.rerun md5 disk tree json_load encode es_index_ok).
Local Abbreviation completes :=
  (Sync.completes md5 disk json_load encode es_index_ok).

(** [built_from self full_path vn idx data doc]: [doc] is the document the
    loop builds from one record of [data] with non-blank text, [idx] being
    the number given to the first record. *)
Definition built_from (self : engine) (full_path vn : string) (idx : nat)
    (data : list item) (doc : document) : Prop :=
  ∃ i it,
    data !! i = Some it ∧
    L doc = (idx + i)%nat ∧
    text doc = strip (item_text it) ∧
    text doc ≠ "" ∧
    start_frame doc = item_start_frame it ∧
    end_frame doc = item_end_frame it ∧
    start_sec doc = item_start_sec it ∧
    end_sec doc = item_end_sec it ∧
    file doc = full_path ∧
    video_name doc = vn ∧
    (if use_semantic self
     then ∃ v, embedding doc = EmbVec v ∧ encode (text doc) = Some v
     else embedding doc = EmbAbsent).

Definition accepted (calls : list document) : list document :=
  filter (λ doc, es_index_ok doc = true) calls.

Lemma built_from_cons self full_path vn idx it data doc :
  built_from self full_path vn (S idx) data doc →
  built_from self full_path vn idx (it :: data) doc.
Proof.
  intros (i & it' & Hi & HL & Hrest). exists (S i), it'.
  split; [done|]. split; [lia|]. done.
Qed.

Lemma index_entries_built self full_path vn idx data st :
  ∃ later,
    es_calls (index_entries self full_path vn idx data st).1 =
      es_calls st ++ later ∧
    Forall (built_from self full_path vn idx data) later ∧
    StronglySorted lt (L <$> later) ∧
    Forall (λ doc, idx ≤ L doc)%nat later ∧
    count (index_entries self full_path vn idx data st).1 =
      (count st + length (accepted later))%nat ∧
    indexed_count (index_entries self full_path vn idx data st).1 =
      indexed_count st.
Proof.
  revert idx st. induction data as [|it rest IH]; intros idx st.
  - exists []. cbn. rewrite app_nil_r, Nat.add_0_r.
    repeat split; constructor.
  - cbn [Sync.index_entries].
    destruct (String.eqb_spec (strip (item_text it)) "") as [Hblank|Htext].
    { destruct (IH (S idx) st) as (later & Hc & Hb & Hs & Hl & Hn & Hi).
      exists later. repeat split; try done.
      - eapply Forall_impl; [exact Hb|]. intros doc. apply built_from_cons.
      - eapply Forall_impl; [exact Hl|]. intros doc ?. simpl in *. lia. }
    destruct (if use_semantic self then EmbVec <$> encode (strip (item_text it))
              else Some EmbAbsent) as [emb|] eqn:Hemb.
    2:{ exists []. cbn. rewrite app_nil_r, Nat.add_0_r.
        repeat split; constructor. }
    set (doc := {| text := strip (item_text it);
                   start_frame := item_start_frame it;
                   end_frame := item_end_frame it;
                   start_sec := item_start_sec it;
                   end_sec := item_end_sec it;
                   file := full_path; video_name := vn; L := idx;
                   embedding := emb |}).
    assert (built_from self full_path vn idx (it :: rest) doc) as Hdoc.
    { exists 0%nat, it. split; [done|]. split; [cbn; lia|].
      repeat (split; [done|]). cbn [text embedding doc].
      destruct (use_semantic self).
      - destruct (encode (strip (item_text it))) as [v|]; [|done].
        injection Hemb as <-. by exists v.
      - by injection Hemb as <-. }
    destruct (es_index_ok doc) eqn:Hok.
    + edestruct (IH (S idx)) as (later & Hc & Hb & Hs & Hl & Hn & Hi).
      exists (doc :: later). rewrite Hc, Hn, Hi. cbn [es_calls count indexed_count].
      split; [by rewrite <- app_assoc|]. split; [|split; [|split; [|split]]].
      * constructor; [done|].
        eapply Forall_impl; [exact Hb|]. intros d. apply built_from_cons.
      * cbn [fmap list_fmap]. constructor; [done|].
        apply Forall_fmap. eapply Forall_impl; [exact Hl|].
        intros d ?. cbn in *. lia.
      * constructor; [cbn; lia|].
        eapply Forall_impl; [exact Hl|]. intros d ?. cbn in *. lia.
      * unfold accepted. rewrite filter_cons, decide_True by done.
        cbn [length]. lia.
      * done.
    + exists [doc]. cbn [fst es_calls count indexed_count].
      split; [done|]. split; [by constructor|]. split; [|split; [|split]].
      * cbn. repeat constructor.
      * constructor; [cbn; lia|constructor].
      * unfold accepted. rewrite filter_cons, decide_False by congruence.
        cbn. lia.
      * done.
Qed.

(** The records [index_file] reads from a path; none when the file cannot
    be opened or parsed. *)
Definition records_of (full_path : string) : list item :=
  default [] (disk !! full_path ≫= json_load).

Definition stem_of (full_path : string) : string :=
  (splitext (basename full_path)).1.

Lemma sorted_lt_NoDup (l : list nat) : StronglySorted lt l → NoDup l.
Proof.
  induction 1 as [|x l _ IH Hx]; constructor; [|done].
  intros Hin. rewrite Forall_forall in Hx. specialize (Hx x Hin). lia.
Qed.

Lemma index_file_built self st f :
  ∃ later,
    es_calls (index_file self st f).1 = es_calls st ++ later ∧
    Forall (built_from self f (stem_of f) 0 (records_of f)) later ∧
    StronglySorted lt (L <$> later) ∧
    count (index_file self st f).1 = (count st + length (accepted later))%nat ∧
    indexed_count (index_file self st f).1 =
      (indexed_count st + if completes self f then 1 else 0)%nat.
Proof.
  unfold completes, Sync.completes.
  rewrite (Sync.index_file_ok_indep md5 disk json_load encode es_index_ok self _ st f).
  unfold Sync.index_file, records_of, stem_of.
  destruct (disk !! f ≫= json_load) as [data|].
  - destruct (index_entries_built self f (splitext (basename f)).1 0 data st)
      as (later & Hc & Hb & Hs & _ & Hn & Hi).
    destruct (Sync.index_entries _ _ _ _ _ _ _ st) as [st' ok].
    cbn [fst snd default] in *. exists later.
    destruct ok; cbn [fst snd es_calls count indexed_count];
      rewrite ?Hi; repeat split; try done; lia.
  - exists []. cbn. rewrite app_nil_r, !Nat.add_0_r. repeat split; constructor.
Qed.

Lemma fold_built self (l : list string) st :
  ∃ later,
    es_calls (foldl (λ st f, (index_file self st f).1) st l) =
      es_calls st ++ later ∧
    Forall (λ doc, file doc ∈ l ∧
                   built_from self (file doc) (stem_of (file doc)) 0
                     (records_of (file doc)) doc) later ∧
    (NoDup l → NoDup ((λ doc, (file doc, L doc)) <$> later)) ∧
    count (foldl (λ st f, (index_file self st f).1) st l) =
      (count st + length (accepted later))%nat ∧
    indexed_count (foldl (λ st f, (index_file self st f).1) st l) =
      (indexed_count st + length (filter (λ f, completes self f = true) l))%nat.
Proof.
  revert st. induction l as [|f l IH]; intros st; cbn [foldl].
  - exists []. cbn. rewrite app_nil_r, !Nat.add_0_r. repeat split; constructor.
  - destruct (IH (index_file self st f).1) as (l2 & -> & Hb2 & Hd2 & -> & ->).
    destruct (index_file_built self st f) as (l1 & -> & Hb1 & Hs1 & -> & ->).
    assert (Forall (λ doc, file doc = f) l1) as Hf1.
    { eapply Forall_impl; [exact Hb1|].
      by intros doc (i & it & _ & _ & _ & _ & _ & _ & _ & _ & ? & _). }
    exists (l1 ++ l2). split; [by rewrite <- app_assoc|].
    split; [|split; [|split]].
    + apply Forall_app. split.
      * rewrite Forall_forall in Hb1, Hf1. apply Forall_forall. intros doc Hdoc.
        rewrite (Hf1 doc Hdoc). split; [by left|].
        rewrite <- (Hf1 doc Hdoc) at 1. rewrite (Hf1 doc Hdoc). by apply Hb1.
      * eapply Forall_impl; [exact Hb2|]. intros doc [? ?]. split; [by right|done].
    + intros [Hfl Hl]%NoDup_cons. rewrite fmap_app. apply NoDup_app.
      split; [|split; [|by apply Hd2]].
      * apply (NoDup_fmap_1 snd). rewrite <- list_fmap_compose.
        by apply sorted_lt_NoDup.
      * intros [g n] Hin1 Hin2.
        apply list_elem_of_fmap in Hin1 as (d1 & [= -> ->] & Hd1).
        apply list_elem_of_fmap in Hin2 as (d2 & [= Hg _] & Hd2').
        rewrite Forall_forall in Hf1, Hb2.
        apply Hfl. rewrite <- (Hf1 d1 Hd1), Hg. by apply (Hb2 d2).
    + unfold accepted. rewrite filter_app, length_app. lia.
    + rewrite filter_cons. destruct (completes self f) eqn:Hc.
      * rewrite decide_True by done. cbn [length]. lia.
      * rewrite decide_False by congruence. lia.
Qed.

Lemma index_data_as_fold self :
  (_index_data self).1 =
  foldl (λ st f, (index_file self st f).1)
    {| tracker := indexed_files self; es_calls := [];
       count := 0; indexed_count := 0 |} (files_to_index self).
Proof.
  unfold Sync._index_data.
  destruct (length (files_to_index self) =? 0)%nat eqn:Hlen; [|done].
  apply Nat.eqb_eq, nil_length_inv in Hlen. by rewrite Hlen.
Qed.

(** X1. Every document a run passes to the index is built from one record
    of a file selected for indexing: its text is the stripped, non-blank
    text of the record at position [L] of that file, its frames and times
    are those of the record, its [video_name] is the base name of the file
    without extension, and its [embedding] is what the model returned for
    the text, or absent when semantic search is off. *)
Theorem submitted_documents (self : engine) (doc : document) :
  doc ∈ es_calls (_index_data self).1 →
  file doc ∈ files_to_index self ∧
  text doc ≠ "" ∧
  video_name doc = (splitext (basename (file doc))).1 ∧
  (∃ data it,
     disk !! file doc ≫= json_load = Some data ∧
     data !! L doc = Some it ∧
     text doc = strip (item_text it) ∧
     start_frame doc = item_start_frame it ∧
     end_frame doc = item_end_frame it ∧
     start_sec doc = item_start_sec it ∧
     end_sec doc = item_end_sec it) ∧
  (if use_semantic self
   then ∃ v, embedding doc = EmbVec v ∧ encode (text doc) = Some v
   else embedding doc = EmbAbsent).
Proof.
  rewrite index_data_as_fold.
  destruct (fold_built self (files_to_index self)
              {| tracker := indexed_files self; es_calls := [];
                 count := 0; indexed_count := 0 |})
    as (later & -> & Hb & _). cbn [es_calls app]. intros Hdoc.
  rewrite Forall_forall in Hb.
  destruct (Hb doc Hdoc)
    as (Hfile & i & it & Hi & HL & Ht & Hne & Hsf & Hef & Hss & Hes & _ & Hvn & Hemb).
  split; [done|]. split; [done|]. split; [done|]. split; [|done].
  unfold records_of in Hi.
  destruct (disk !! file doc ≫= json_load) as [data|]; [|done].
  exists data, it. cbn in Hi. rewrite HL. by repeat split.
Qed.

Lemma count_accepted (self : engine) :
  count (_index_data self).1 = length (accepted (es_calls (_index_data self).1)).
Proof.
  rewrite index_data_as_fold.
  destruct (fold_built self (files_to_index self)
              {| tracker := indexed_files self; es_calls := [];
                 count := 0; indexed_count := 0 |})
    as (later & -> & _ & _ & -> & _). done.
Qed.

(** X2. At the end of a run [count] is the number of documents the index
    accepted among those passed to it, and [indexed_count] is the number of
    selected files whose [try] block ran to its end. *)
Theorem run_counters (self : engine) :
  count (_index_data self).1 = length (accepted (es_calls (_index_data self).1)) ∧
  indexed_count (_index_data self).1 =
    length (filter (λ f, completes self f = true) (files_to_index self)) ∧
  (count (_index_data self).1 ≤ length (es_calls (_index_data self).1))%nat ∧
  (indexed_count (_index_data self).1 ≤ length (files_to_index self))%nat.
Proof.
  rewrite index_data_as_fold.
  destruct (fold_built self (files_to_index self)
              {| tracker := indexed_files self; es_calls := [];
                 count := 0; indexed_count := 0 |})
    as (later & -> & _ & _ & -> & ->). cbn [es_calls count indexed_count app Nat.add].
  split; [done|]. split; [done|]. split.
  - unfold accepted. apply length_filter.
  - apply length_filter.
Qed.

(** X3. When the selected files are pairwise distinct, no two documents
    passed to the index in one run share both [file] and [L]: the pair
    identifies the document within the run. *)
Theorem document_identity (self : engine) :
  NoDup (files_to_index self) →
  NoDup ((λ doc, (file doc, L doc)) <$> es_calls (_index_data self).1).
Proof.
  intros Hnd. rewrite index_data_as_fold.
  destruct (fold_built self (files_to_index self)
              {| tracker := indexed_files self; es_calls := [];
                 count := 0; indexed_count := 0 |})
    as (later & -> & _ & Hpairs & _). cbn [es_calls app]. by apply Hpairs.
Qed.

(** X4. A run never drops a tracker entry and changes the tracker only at
    selected files whose [try] block ran to its end, where it stores the
    current hash of the file.  The entry of every other path, in particular
    of a file whose indexing raised, is as before the run. *)
Theorem tracker_after_run (self : engine) :
  (∀ p, is_Some (indexed_files self !! p) →
        is_Some (tracker (_index_data self).1 !! p)) ∧
  (∀ p, p ∈ files_to_index self → completes self p = true →
        tracker (_index_data self).1 !! p = Some (get_file_hash p)) ∧
  (∀ p, p ∉ files_to_index self ∨ completes self p = false →
        tracker (_index_data self).1 !! p = indexed_files self !! p) ∧
  (∀ p stored, tracker (_index_data self).1 !! p = Some stored →
        indexed_files self !! p = Some stored ∨
        (p ∈ files_to_index self ∧ stored = get_file_hash p ∧
         is_Some (disk !! p))).
Proof.
  pose proof (Sync.index_data_tracker_lookup md5 disk tree json_load encode
                es_index_ok self) as Hlook.
  split; [|split; [|split]].
  - intros p Hp. rewrite Hlook. by destruct (decide _).
  - intros p Hin Hc. rewrite Hlook. by rewrite decide_True.
  - intros p Hp. rewrite Hlook. rewrite decide_False; [done|].
    intros [? ?]. destruct Hp; [done|congruence].
  - intros p stored. rewrite Hlook.
    destruct (decide _) as [[Hin Hc]|_]; [|by left].
    intros [= <-]. right. split; [done|]. split; [done|].
    by eapply Sync.completes_readable.
Qed.

Lemma index_entries_calls_rel s1 s2 full_path vn idx data st1 st2 :
  use_semantic s1 = use_semantic s2 →
  ∃ later,
    es_calls (index_entries s1 full_path vn idx data st1).1 = es_calls st1 ++ later ∧
    es_calls (index_entries s2 full_path vn idx data st2).1 = es_calls st2 ++ later ∧
    (index_entries s1 full_path vn idx data st1).2 =
    (index_entries s2 full_path vn idx data st2).2.
Proof.
  intros Hsem. revert idx st1 st2.
  induction data as [|it rest IH]; intros idx st1 st2; cbn [Sync.index_entries].
  - exists []. by rewrite !app_nil_r.
  - destruct (String.eqb _ ""); [apply IH|]. rewrite <- Hsem.
    destruct (if use_semantic s1 then _ else _) as [emb|];
      [|exists []; by rewrite !app_nil_r].
    destruct (es_index_ok _).
    + edestruct (IH (S idx)) as (later & H1 & H2 & H3).
      rewrite H1, H2, H3. cbn [es_calls].
      rewrite <- !app_assoc. by eexists.
    + cbn. by eexists.
Qed.

Lemma index_file_calls_rel s1 s2 st1 st2 f :
  use_semantic s1 = use_semantic s2 →
  ∃ later,
    es_calls (index_file s1 st1 f).1 = es_calls st1 ++ later ∧
    es_calls (index_file s2 st2 f).1 = es_calls st2 ++ later.
Proof.
  intros Hsem. unfold Sync.index_file.
  destruct (disk !! f ≫= json_load) as [data|];
    [|exists []; by rewrite !app_nil_r].
  destruct (index_entries_calls_rel s1 s2 f (splitext (basename f)).1 0 data
              st1 st2 Hsem) as (later & H1 & H2 & Hok).
  destruct (Sync.index_entries _ _ s1 _ _ _ _ _) as [st1' ok1],
           (Sync.index_entries _ _ s2 _ _ _ _ _) as [st2' ok2].
  cbn [fst snd] in *. subst ok2. exists later. by destruct ok1.
Qed.

Lemma fold_calls_rel s1 s2 (l : list string) st1 st2 :
  use_semantic s1 = use_semantic s2 →
  ∃ later,
    es_calls (foldl (λ st f, (index_file s1 st f).1) st1 l) = es_calls st1 ++ later ∧
    es_calls (foldl (λ st f, (index_file s2 st f).1) st2 l) = es_calls st2 ++ later.
Proof.
  intros Hsem. revert st1 st2.
  induction l as [|f l IH]; intros st1 st2; cbn [foldl].
  - exists []. by rewrite !app_nil_r.
  - destruct (IH (index_file s1 st1 f).1 (index_file s2 st2 f).1)
      as (l2 & -> & ->).
    destruct (index_file_calls_rel s1 s2 st1 st2 f Hsem) as (l1 & -> & ->).
    exists (l1 ++ l2). by rewrite <- !app_assoc.
Qed.

Lemma forced_files self :
  force_reindex self = true →
  files_to_index self = all_files (context_json_dir self) tree.
Proof.
  intros Hforce. unfold Sync.files_to_index.
  induction (all_files _ tree) as [|f l IH]; [done|].
  rewrite filter_cons, decide_True, IH; [done|].
  unfold Sync._should_index_file. by rewrite Hforce.
Qed.

(** X5. With the force flag every scanned file is selected whatever the
    tracker holds, and a second forced run passes to the index exactly the
    documents the first one passed, in the same order: since [es.index] is
    called without a document id, every accepted document is stored a
    second time. *)
Theorem forced_rerun_resubmits (self : engine)
    (before : option (gmap string string)) (save : save_result) :
  force_reindex self = true →
  files_to_index self = all_files (context_json_dir self) tree ∧
  es_calls (rerun self before save).1 = es_calls (_index_data self).1 ∧
  count (rerun self before save).1 = count (_index_data self).1.
Proof.
  intros Hforce.
  assert (es_calls (rerun self before save).1 = es_calls (_index_data self).1)
    as Hcalls.
  { unfold Sync.rerun. rewrite !index_data_as_fold.
    rewrite (forced_files (Sync.next_engine _ _ _ _ _ _ self before save))
      by done.
    rewrite (forced_files self) by done.
    cbn [context_json_dir Sync.next_engine].
    match goal with
    | |- es_calls (foldl _ ?a ?l) = es_calls (foldl _ ?b _) =>
        destruct (fold_calls_rel
                    (Sync.next_engine md5 disk tree json_load encode
                       es_index_ok self before save) self l a b eq_refl)
          as (later & H1 & H2)
    end.
    cbn [context_json_dir Sync.next_engine] in H1.
    by rewrite H1, H2. }
  split; [by apply forced_files|]. split; [done|].
  rewrite (count_accepted self).
  pose proof (count_accepted (Sync.next_engine md5 disk tree json_load encode
                                es_index_ok self before save)) as Hc.
  unfold Sync.rerun. rewrite Hc. unfold Sync.rerun in Hcalls. by rewrite Hcalls.
Qed.

(** *** The run of [audio_search_engine_list.py]

    There the loop over the files has no [try]: the first exception leaves
    [_index_data], the remaining files are not read and
    [_save_indexed_files] is not reached. *)

Inductive run_end : Type :=
  | NothingToIndex
  | RaisedInFile (full_path : string)
  | TrackerSaved.

(** The state is that of the other run; this file has no [indexed_count]
    and the field is not read below. *)
Fixpoint index_files_strict (self : engine) (st : run_state)
    (todo : list string) : run_state * run_end :=
  match todo with
  | [] => (st, TrackerSaved)
  | full_path :: rest =>
      let '(st', ok) := index_file self st full_path in
      if ok then index_files_strict self st' rest
      else (st', RaisedInFile full_path)
  end.

Definition _index_data_strict (self : engine) : run_state * run_end :=
  let start :=
    {| tracker := indexed_files self; es_calls := [];
       count := 0; indexed_count := 0 |} in
  let todo := files_to_index self in
  if (length todo =? 0)%nat then (start, NothingToIndex)
  else index_files_strict self start todo.

Lemma index_file_flag self st f :
  (index_file self st f).2 = completes self f.
Proof.
  unfold completes, Sync.completes.
  apply (Sync.index_file_ok_indep md5 disk json_load encode es_index_ok).
Qed.

Lemma index_files_strict_spec self st todo :
  (forallb (completes self) todo = true →
   index_files_strict self st todo =
   (foldl (λ st f, (index_file self st f).1) st todo, TrackerSaved)) ∧
  (∀ done f rest,
     todo = done ++ f :: rest →
     forallb (completes self) done = true → completes self f = false →
     index_files_strict self st todo =
     (foldl (λ st f, (index_file self st f).1) st (done ++ [f]),
      RaisedInFile f)).
Proof.
  revert st. induction todo as [|g todo IH]; intros st.
  - split; [done|]. intros done f rest H. by destruct done.
  - cbn [index_files_strict foldl forallb].
    pose proof (index_file_flag self st g) as Hflag.
    destruct (index_file self st g) as [st' ok] eqn:Hg. cbn [snd fst] in *.
    destruct (IH st') as [IHall IHstop]. split.
    + intros [Hc Hrest]%andb_true_iff. rewrite Hflag, Hc. by apply IHall.
    + intros [|d done] f rest Heq Hdone Hf.
      * injection Heq as -> ->. rewrite Hflag, Hf. cbn. by rewrite Hg.
      * injection Heq as -> ->. cbn [forallb] in Hdone.
        apply andb_true_iff in Hdone as [Hd Hdone].
        rewrite Hflag, Hd. cbn [app foldl]. rewrite Hg. cbn [fst].
        by eapply IHstop.
Qed.

(** X6. In the run of [audio_search_engine_list.py], when every selected
    file is indexed to its end the result is that of the run with the
    per-file [try]: same documents passed, same tracker, tracker saved.
    When a file raises, the run stops there: the files after it are not
    read and the tracker is not saved, although the files before it were
    indexed and recorded in memory. *)
Theorem strict_run (self : engine) :
  (files_to_index self ≠ [] →
   forallb (completes self) (files_to_index self) = true →
   (_index_data_strict self).2 = TrackerSaved ∧
   es_calls (_index_data_strict self).1 = es_calls (_index_data self).1 ∧
   tracker (_index_data_strict self).1 = tracker (_index_data self).1 ∧
   count (_index_data_strict self).1 = count (_index_data self).1) ∧
  (∀ done f rest,
     files_to_index self = done ++ f :: rest →
     forallb (completes self) done = true → completes self f = false →
     (_index_data_strict self).2 = RaisedInFile f ∧
     (∀ doc, doc ∈ es_calls (_index_data_strict self).1 →
             file doc ∈ done ++ [f]) ∧
     (∀ p, p ∈ done → tracker (_index_data_strict self).1 !! p =
                       Some (get_file_hash p))).
Proof.
  split.
  - intros Hne Hall.
    assert (_index_data_strict self = ((_index_data self).1, TrackerSaved))
      as ->; [|done].
    rewrite index_data_as_fold. unfold _index_data_strict.
    destruct (files_to_index self) as [|g l] eqn:Htodo; [done|].
    cbn [length Nat.eqb]. by apply index_files_strict_spec.
  - intros done f rest Htodo Hdone Hf. unfold _index_data_strict.
    rewrite Htodo.
    replace (length (done ++ f :: rest) =? 0)%nat with false
      by (symmetry; apply Nat.eqb_neq; rewrite length_app; simpl; lia).
    rewrite (proj2 (index_files_strict_spec self _ (done ++ f :: rest))
               done f rest eq_refl Hdone Hf).
    cbn [fst snd]. split; [done|]. split.
    + intros doc.
      destruct (fold_built self (done ++ [f])
                  {| tracker := indexed_files self; es_calls := [];
                     count := 0; indexed_count := 0 |})
        as (later & -> & Hb & _). cbn [es_calls app]. intros Hdoc.
      rewrite Forall_forall in Hb. by destruct (Hb doc Hdoc).
    + intros p Hp.
      rewrite (Sync.fold_tracker_lookup md5 disk json_load encode es_index_ok).
      rewrite decide_True; [done|]. split; [set_solver|].
      rewrite forallb_forall in Hdone. apply Hdone. by apply list_elem_of_In.
Qed.

End run_props.

(** *** A change of one file between two runs *)

Lemma hash_after_write md5 (disk : gmap string string) p new_bytes f :
  Sync.get_file_hash md5 (<[p := new_bytes]> disk) f =
  if decide (f = p) then md5 new_bytes else Sync.get_file_hash md5 disk f.
Proof.
  unfold Sync.get_file_hash. destruct (decide (f = p)) as [->|Hne].
  - by rewrite lookup_insert_eq.
  - by rewrite lookup_insert_ne.
Qed.

(** X7. Without the force flag, after the content of one file whose tracker
    entry was up to date is replaced by bytes with another digest, the dirty
    check selects that file and, among the other paths, exactly those it
    selected before.  So when no file was selected before the change, the
    next run selects the changed file and no other. *)
Theorem changed_file_detected (md5 : string → string)
    (disk : gmap string string) (tree : node) (self : engine)
    (p new_bytes : string) :
  force_reindex self = false →
  indexed_files self !! p = Some (Sync.get_file_hash md5 disk p) →
  md5 new_bytes ≠ Sync.get_file_hash md5 disk p →
  (∀ f, Sync._should_index_file md5 (<[p := new_bytes]> disk) self f = true ↔
        f = p ∨ Sync._should_index_file md5 disk self f = true) ∧
  (Sync.files_to_index md5 disk tree self = [] →
   Sync.files_to_index md5 (<[p := new_bytes]> disk) tree self =
   filter (λ f, f = p) (all_files (context_json_dir self) tree)).
Proof.
  intros Hforce Hclean Hdigest.
  assert (∀ f, Sync._should_index_file md5 (<[p := new_bytes]> disk) self f = true ↔
               f = p ∨ Sync._should_index_file md5 disk self f = true) as Hiff.
  { intros f. rewrite !Sync.should_index_file_iff, Hforce, hash_after_write.
    destruct (decide (f = p)) as [->|Hne].
    - split; [by left|]. intros _. right; right.
      eexists. split; [exact Hclean|]. congruence.
    - split; [by right|]. by intros [?|?]. }
  split; [done|]. intros Hnone. unfold Sync.files_to_index.
  apply Sync.filter_ext_elem. intros f Hf. rewrite Hiff.
  split; [|by left]. intros [?|Hs]; [done|]. exfalso.
  assert (f ∈ Sync.files_to_index md5 disk tree self) as Hin.
  { unfold Sync.files_to_index. apply list_elem_of_filter. by split. }
  rewrite Hnone in Hin. by apply elem_of_nil in Hin.
Qed.

(** *** [reset_index_tracker] *)

(** The tracker file (its content, [None] when it does not exist) and the
    dictionary in memory, after the call.  The dictionary is emptied only
    in the branch that removes the file. *)
Definition reset_index_tracker (tracker_file : option string)
    (indexed_files : gmap string string)
    : option string * gmap string string :=
  match tracker_file with
  | Some _ => (None, ∅)
  | None => (None, indexed_files)
  end.

Definition with_tracker (self : engine) (store : gmap string string) : engine :=
  {| context_json_dir := context_json_dir self;
     use_semantic := use_semantic self;
     force_reindex := force_reindex self;
     indexed_files := store |}.

(** X8. After [reset_index_tracker] the tracker file does not exist.  When
    the file existed, the dictionary in memory is empty and the next run of
    the same engine selects every scanned file.  When the file did not
    exist, the dictionary in memory is kept, so the engine goes on skipping
    the files recorded in it. *)
Theorem reset_then_run (md5 : string → string) (disk : gmap string string)
    (tree : node) (self : engine) (tracker_file : option string) :
  let after := reset_index_tracker tracker_file (indexed_files self) in
  after.1 = None ∧
  (is_Some tracker_file →
   Sync.files_to_index md5 disk tree (with_tracker self after.2) =
   all_files (context_json_dir self) tree) ∧
  (tracker_file = None →
   Sync.files_to_index md5 disk tree (with_tracker self after.2) =
   Sync.files_to_index md5 disk tree self).
Proof.
  intros after. unfold after, reset_index_tracker.
  destruct tracker_file as [content|]; cbn [fst snd].
  - split; [done|]. split; [|done]. intros _. unfold Sync.files_to_index.
    cbn [context_json_dir with_tracker].
    induction (all_files _ tree) as [|f l IH]; [done|].
    rewrite filter_cons, decide_True, IH; [done|].
    unfold Sync._should_index_file. cbn [force_reindex indexed_files with_tracker].
    destruct (force_reindex self); [done|]. by rewrite lookup_empty.
  - split; [done|]. split; [by intros [? ?]|]. intros _.
    by destruct self.
Qed.

(** *** Scanned paths *)

Lemma endswith_join2 (path b : string) : endswith (join2 path b) b = true.
Proof.
  unfold join2. destruct (startswith b _).
  - apply (endswith_app "").
  - destruct (_ || _); [apply endswith_app|].
    rewrite <- append_assoc. apply endswith_app.
Qed.

Lemma endswith_trans (a b c : string) :
  endswith a b = true → endswith b c = true → endswith a c = true.
Proof.
  rewrite !endswith_spec. intros [p ->] [q ->]. exists (p +:+ q).
  by rewrite append_assoc.
Qed.

(** X9. Every path the scan returns ends in ".json", and nothing is
    returned when the root is not a directory. *)
Theorem scanned_paths_json (top : string) (tree : node) :
  (∀ p, p ∈ all_files top tree → endswith p ".json" = true) ∧
  (tree = File → all_files top tree = []).
Proof.
  split; [|by intros ->].
  intros p (name & Hfile & Hjson)%all_files_sound.
  apply endswith_trans with (b := name); [|done].
  clear Hjson. induction Hfile as [top entries name _|]; [|done].
  apply endswith_join2.
Qed.

(** *** Examples *)

Definition sample_submitted : document :=
  {| text := "xin chao"; start_frame := Some 25; end_frame := Some 60;
     start_sec := 1; end_sec := 2 # 1; file := "data/z.json";
     video_name := "z"; L := 1;
     embedding := EmbVec [1 # 2; 1 # 3; 1 # 4] |}.

Lemma submitted_documents_witness :
  file sample_submitted ∈
    Sync.files_to_index sample_md5 sample_disk sample_source
      (sample_engine true false ∅) ∧
  text sample_submitted ≠ "".
Proof.
  destruct (submitted_documents sample_md5 sample_disk sample_source
              sample_json_load sample_encode accept_all
              (sample_engine true false ∅) sample_submitted)
    as (Hfile & Htext & _).
  - vm_compute. left.
  - by split.
Defined.

Lemma document_identity_witness :
  NoDup ((λ doc, (file doc, L doc)) <$>
         es_calls (Sync._index_data sample_md5 sample_disk sample_source
                     sample_json_load sample_encode accept_all
                     (sample_engine true false ∅)).1).
Proof.
  apply (document_identity sample_md5 sample_disk sample_source
           sample_json_load sample_encode accept_all
           (sample_engine true false ∅)).
  apply (bool_decide_unpack _). vm_compute. exact I.
Defined.

Lemma forced_rerun_resubmits_witness :
  es_calls (Sync.rerun sample_md5 sample_disk sample_source sample_json_load
              sample_encode accept_all (sample_engine false true ∅)
              None WriteInterrupted).1 =
  es_calls (Sync._index_data sample_md5 sample_disk sample_source
              sample_json_load sample_encode accept_all
              (sample_engine false true ∅)).1.
Proof.
  apply (forced_rerun_resubmits sample_md5 sample_disk sample_source
           sample_json_load sample_encode accept_all
           (sample_engine false true ∅) None WriteInterrupted).
  reflexivity.
Defined.

Lemma changed_file_detected_witness :
  Sync.files_to_index sample_md5 (<[ "data/z.json" := "transcript z, edited" ]> sample_disk)
    sample_source
    (sample_engine false false
       (tracker (Sync._index_data sample_md5 sample_disk sample_source
                   sample_json_load sample_encode accept_all
                   (sample_engine false false ∅)).1)) =
  filter (λ f, f = "data/z.json") (all_files "data" sample_source).
Proof.
  apply (changed_file_detected sample_md5 sample_disk sample_source
           (sample_engine false false
              (tracker (Sync._index_data sample_md5 sample_disk sample_source
                          sample_json_load sample_encode accept_all
                          (sample_engine false false ∅)).1))
           "data/z.json" "transcript z, edited").
  - reflexivity.
  - vm_compute. reflexivity.
  - vm_compute. discriminate.
  - vm_compute. reflexivity.
Defined.

Lemma tracker_after_run_witness :
  tracker (Sync._index_data sample_md5 sample_disk sample_source
             sample_json_load sample_encode accept_all
             (sample_engine false false ∅)).1 !! "data/z.json" =
  Some (Sync.get_file_hash sample_md5 sample_disk "data/z.json").
Proof.
  apply (proj1 (proj2 (tracker_after_run sample_md5 sample_disk sample_source
                         sample_json_load sample_encode accept_all
                         (sample_engine false false ∅)))).
  - vm_compute. left.
  - vm_compute. reflexivity.
Defined.

(** With an index that refuses the vectors, the run without the per-file
    [try] stops in the first file. *)
Lemma strict_run_witness :
  (_index_data_strict sample_md5 sample_disk sample_source sample_json_load
     sample_encode dims_ok (sample_engine true false ∅)).2 =
  RaisedInFile "data/z.json".
Proof.
  apply (proj2 (strict_run sample_md5 sample_disk sample_source
                  sample_json_load sample_encode dims_ok
                  (sample_engine true false ∅))
           [] "data/z.json" ["data/K01/K01_V001.json"]).
  - vm_compute. reflexivity.
  - reflexivity.
  - vm_compute. reflexivity.
Defined.

Lemma reset_then_run_witness :
  Sync.files_to_index sample_md5 sample_disk sample_source
    (with_tracker
       (sample_engine false false
          {[ "data/z.json" := sample_md5 "transcript z" ]})
       (reset_index_tracker (Some "{}")
          {[ "data/z.json" := sample_md5 "transcript z" ]}).2) =
  all_files "data" sample_source.
Proof.
  apply (proj1 (proj2 (reset_then_run sample_md5 sample_disk sample_source
                         (sample_engine false false
                            {[ "data/z.json" := sample_md5 "transcript z" ]})
                         (Some "{}")))).
  by exists "{}".
Defined.

Lemma scanned_paths_json_witness :
  endswith "data/K01/K01_V001.json" ".json" = true.
Proof.
  apply (proj1 (scanned_paths_json "data" sample_source)).
  vm_compute. right. left.
Defined.

End SyncProps.

(** ** Further properties of the keyframe lookup *)

Module KeyframeProps.
Import PyStr PosixPath Keyframes.

Lemma filter_sublist_impl {A} (P Q : A → Prop) `{∀ x, Decision (P x)}
    `{∀ x, Decision (Q x)} (l : list A) :
  (∀ x, P x → Q x) → filter P l `sublist_of` filter Q l.
Proof.
  intros HPQ. induction l as [|x l IH]; [constructor|].
  rewrite !filter_cons. destruct (decide (P x)) as [HP|HP].
  - rewrite decide_True by auto. by constructor.
  - destruct (decide (Q x)); [by constructor|done].
Qed.

Lemma fmap_sublist {A B} (f : A → B) (l1 l2 : list A) :
  l1 `sublist_of` l2 → f <$> l1 `sublist_of` f <$> l2.
Proof. induction 1; cbn [fmap list_fmap]; by constructor. Qed.

(** X10. For integer frame bounds the lookup is monotone in the frame
    range: for two documents of the same file, when the lookup returns for
    the wider range it returns for the narrower one, and the frames of the
    narrower range form a sublist of those of the wider one, in the same
    order.  A range whose end is below its start gives no frame, unless the
    path cannot be listed.  Every path of a returned result ends in one of
    the three image extensions, whatever the bounds. *)
Theorem frames_range (fs : keyframe_tree) (base : string) :
  (∀ entry s e,
     start_frame entry = Some s → end_frame entry = Some e → e < s →
     fs !! keyframe_folder entry base ≠ Some NotListable →
     list_keyframes_in_range fs entry base = Returns []) ∧
  (∀ narrow wide sn en sw ew found,
     file narrow = file wide →
     start_frame narrow = Some sn → end_frame narrow = Some en →
     start_frame wide = Some sw → end_frame wide = Some ew →
     sw ≤ sn → en ≤ ew →
     list_keyframes_in_range fs wide base = Returns found →
     ∃ fewer,
       list_keyframes_in_range fs narrow base = Returns fewer ∧
       fewer `sublist_of` found) ∧
  (∀ entry found p,
     list_keyframes_in_range fs entry base = Returns found →
     p ∈ found → endswith_any p image_exts = true).
Proof.
  split; [|split].
  - intros entry s e Hs He Hrange Hlist.
    destruct (fs !! keyframe_folder entry base) as [[names|]|] eqn:Hfs; [|done|].
    + rewrite (keyframes_of_listing _ _ _ _ _ _ Hfs Hs He). f_equal.
      induction (merge_sort String.le names) as [|x l IH]; [done|].
      rewrite filter_cons, decide_False; [done|].
      intros (_ & n & _ & ?). lia.
    + unfold list_keyframes_in_range. by rewrite Hfs.
  - intros narrow wide sn en sw ew found Hfile Hsn Hen Hsw Hew Hs He.
    assert (keyframe_folder narrow base = keyframe_folder wide base) as Hfolder.
    { unfold keyframe_folder. by rewrite Hfile. }
    destruct (fs !! keyframe_folder wide base) as [[names|]|] eqn:Hfs.
    + rewrite (keyframes_of_listing fs wide base names _ _ Hfs Hsw Hew).
      intros [= <-]. rewrite <- Hfolder in Hfs.
      rewrite (keyframes_of_listing fs narrow base names _ _ Hfs Hsn Hen), Hfolder.
      eexists. split; [done|].
      apply fmap_sublist, filter_sublist_impl.
      intros fname (Hext & n & Hn & ?). split; [done|]. exists n.
      split; [done|]. lia.
    + unfold list_keyframes_in_range. by rewrite Hfs.
    + unfold list_keyframes_in_range. rewrite Hfolder, Hfs. intros [= <-].
      by exists [].
  - intros entry found p.
    destruct (fs !! keyframe_folder entry base) as [[names|]|] eqn:Hfs.
    + destruct (start_frame entry) as [s|] eqn:Hs;
        [destruct (end_frame entry) as [e|] eqn:He|].
      * rewrite (keyframes_of_listing _ _ _ _ _ _ Hfs Hs He). intros [= <-].
        intros (fname & -> & [Hsel _]%list_elem_of_filter)%list_elem_of_fmap.
        destruct Hsel as [(ext & stem & Hext & ->) _].
        apply endswith_any_spec.
        assert (endswith (join (keyframe_folder entry base) [stem +:+ ext]) ext
                = true) as (q & Hq)%endswith_spec.
        { eapply SyncProps.endswith_trans; [apply SyncProps.endswith_join2|].
          apply endswith_app. }
        by exists ext, q.
      * rewrite (keyframes_untyped _ _ _ _ Hfs) by (by right).
        destruct (existsb _ names); [done|].
        intros [= <-]. by intros ?%elem_of_nil.
      * rewrite (keyframes_untyped _ _ _ _ Hfs) by (by left).
        destruct (existsb _ names); [done|].
        intros [= <-]. by intros ?%elem_of_nil.
    + unfold list_keyframes_in_range. by rewrite Hfs.
    + unfold list_keyframes_in_range. rewrite Hfs. intros [= <-].
      by intros ?%elem_of_nil.
Qed.

Definition wide_entry : document :=
  {| text := "xe"; start_frame := Some 0; end_frame := Some 200;
     start_sec := 0; end_sec := 8 # 1;
     file := "/data/audio/K01_V001.json"; video_name := "K01_V001";
     L := 0%nat; embedding := EmbAbsent |}.

Lemma frames_range_witness :
  ∃ fewer,
    list_keyframes_in_range sample_tree sample_entry "/data/keyframes" =
      Returns fewer ∧
    fewer `sublist_of`
      [ "/data/keyframes/K01/K01_V001/105.jpg";
        "/data/keyframes/K01/K01_V001/130.jpg";
        "/data/keyframes/K01/K01_V001/90.jpg" ].
Proof.
  apply (proj1 (proj2 (frames_range sample_tree "/data/keyframes"))
           sample_entry wide_entry 100 120 0 200).
  - reflexivity.
  - reflexivity.
  - reflexivity.
  - reflexivity.
  - reflexivity.
  - vm_compute. discriminate.
  - vm_compute. discriminate.
  - vm_compute. reflexivity.
Defined.

End KeyframeProps.

(** ** Further properties of the retrieval *)

Module SearchProps.
Import Keyframes Search.

Section search_props.

Variable es_search : request → option (list document).
Variable encode : string → option (list Q).
Variable fs : keyframe_tree.

Local Abbreviation search := (Search.search es_search encode).
Local Abbreviation search_with_frames :=
  (Search.search_with_frames es_search encode fs).
Local Abbreviation add_frames := (Search.add_frames fs).

(** X11. [search] raises exactly when the keyword request raises or, with
    vector search enabled, when embedding the query raises.  A result it
    returns always binds ["keyword"] to the hits of the keyword request;
    it binds ["semantic"] exactly when vector search is enabled, to the
    hits of the vector request or to the empty list when that request
    failed; it has no other key. *)
Theorem search_result_shape (self : retriever) (query : string) (k : nat)
    (use_fuzzy : bool) :
  (search self query k use_fuzzy = None ↔
   es_search (keyword_query query k use_fuzzy) = None ∨
   (use_semantic self = true ∧ encode query = None)) ∧
  (∀ results, search self query k use_fuzzy = Some results →
     results !! "keyword" = es_search (keyword_query query k use_fuzzy) ∧
     (use_semantic self = false → results !! "semantic" = None) ∧
     (use_semantic self = true →
      ∃ query_vec, encode query = Some query_vec ∧
        results !! "semantic" =
        Some (default [] (es_search (semantic_query query_vec k)))) ∧
     dom results ⊆ ({["keyword"; "semantic"]} : gset string)).
Proof.
  unfold Search.search.
  destruct (es_search (keyword_query query k use_fuzzy)) as [hits|];
    cbn [mbind option_bind]; [|split; [by split; [left|]|done]].
  destruct (use_semantic self).
  - destruct (encode query) as [query_vec|]; cbn [mbind option_bind].
    + split.
      { destruct (es_search (semantic_query query_vec k)); split; try done;
          by intros [|[_ ?]]. }
      intros results Hres.
      assert (results = <["semantic" := default [] (es_search (semantic_query query_vec k))]>
                          (<["keyword" := hits]> ∅)) as ->.
      { by destruct (es_search (semantic_query query_vec k)); injection Hres as <-. }
      split; [by rewrite lookup_insert_ne, lookup_insert_eq|].
      split; [done|]. split.
      * intros _. exists query_vec. by rewrite lookup_insert_eq.
    * rewrite !dom_insert_L, dom_empty_L. set_solver.
    + split; [by split; [right|]|done].
  - split; [by split; [|intros [|[? _]]]|].
    intros results [= <-]. split; [by rewrite lookup_insert_eq|].
    split; [by rewrite lookup_insert_ne|]. split; [done|].
    rewrite dom_insert_L, dom_empty_L. set_solver.
Qed.

Lemma add_frames_all (self : retriever) (hits : list document)
    (annotated : list framed) :
  mapM (add_frames self) hits = Some annotated →
  source <$> annotated = hits ∧
  Forall (λ r, list_keyframes_in_range fs (source r) (base_keyframe_dir self)
               = Returns (frames r) ∧
               num_frames r = length (frames r)) annotated.
Proof.
  intros Hall%mapM_Some. induction Hall as [|hit r hits annotated Hr _ IH].
  - by split.
  - destruct IH as [IHs IHf]. unfold Search.add_frames in Hr.
    destruct (list_keyframes_in_range fs hit (base_keyframe_dir self))
      as [found|] eqn:Hfound; [|done].
    injection Hr as <-. cbn [fmap list_fmap source]. cbn [fmap] in IHs.
    rewrite IHs. split; [done|]. by constructor.
Qed.

Lemma mapM_cons_eq {A B} (f : A → option B) (x : A) (l : list A) :
  mapM f (x :: l) = y ← f x; k ← mapM f l; Some (y :: k).
Proof. done. Qed.

Lemma add_frames_raises (self : retriever) (hits : list document) :
  mapM (add_frames self) hits = None ↔
  ∃ hit e, hit ∈ hits ∧
    list_keyframes_in_range fs hit (base_keyframe_dir self) = Raises e.
Proof.
  induction hits as [|hit hits IH].
  - split; [done|]. by intros (? & ? & ?%elem_of_nil & _).
  - rewrite mapM_cons_eq.
    destruct (add_frames self hit) as [r|] eqn:Hr; cbn [mbind option_bind].
    + assert (∀ e, list_keyframes_in_range fs hit (base_keyframe_dir self)
                   ≠ Raises e) as Hret.
      { intros e He. unfold Search.add_frames in Hr. by rewrite He in Hr. }
      destruct (mapM (add_frames self) hits) as [annotated|];
        cbn [mbind option_bind].
      * split; [done|]. intros (h & e & [->|Hin]%elem_of_cons & Hh).
        -- by apply Hret in Hh.
        -- assert (Some annotated = None) as Hn; [|done].
           apply IH. by exists h, e.
      * split; [|done]. intros _.
        destruct (proj1 IH eq_refl) as (h & e & Hin & Hh).
        exists h, e. split; [by right|done].
    + split; [|done]. intros _. unfold Search.add_frames in Hr.
      destruct (list_keyframes_in_range fs hit (base_keyframe_dir self))
        as [found|e] eqn:Hfound; [done|].
      exists hit, e. split; [by left|done].
Qed.

(** X12. [search_with_frames] raises exactly when [search] raises or the
    keyframe lookup of one of the returned hits raises.  A result it
    returns has the two keys ["semantic"] and ["keyword"]; under each it
    lists the hits [search] returned for that mode, in the same order (none
    for a mode [search] did not return), each with the frames
    [list_keyframes_in_range] returns for it and with [num_frames] equal to
    their number. *)
Theorem frames_attached (self : retriever) (query : string) (k : nat)
    (use_fuzzy : bool) :
  (search_with_frames self query k use_fuzzy = None ↔
   search self query k use_fuzzy = None ∨
   ∃ results mode hit e,
     search self query k use_fuzzy = Some results ∧
     (mode = "semantic" ∨ mode = "keyword") ∧
     hit ∈ default [] (results !! mode) ∧
     list_keyframes_in_range fs hit (base_keyframe_dir self) = Raises e) ∧
  (∀ output, search_with_frames self query k use_fuzzy = Some output →
     ∃ results,
       search self query k use_fuzzy = Some results ∧
       dom output = ({["semantic"; "keyword"]} : gset string) ∧
       ∀ mode, mode = "semantic" ∨ mode = "keyword" →
         ∃ annotated,
           output !! mode = Some annotated ∧
           source <$> annotated = default [] (results !! mode) ∧
           Forall (λ r, list_keyframes_in_range fs (source r)
                          (base_keyframe_dir self) = Returns (frames r) ∧
                        num_frames r = length (frames r)) annotated).
Proof.
  unfold Search.search_with_frames, Search.frames_of_mode.
  destruct (search self query k use_fuzzy) as [results|];
    cbn [mbind option_bind]; [|split; [by split; [left|]|done]].
  destruct (mapM (add_frames self) (default [] (results !! "semantic")))
    as [sem|] eqn:Hsem; cbn [mbind option_bind].
  - destruct (mapM (add_frames self) (default [] (results !! "keyword")))
      as [kw|] eqn:Hkw; cbn [mbind option_bind].
    + split.
      * split; [done|]. intros [|(r & mode & hit & e & [= <-] & Hmode & Hin & Hr)];
          [done|].
        assert (mapM (add_frames self) (default [] (results !! mode)) = None)
          as Hnone by (apply add_frames_raises; by exists hit, e).
        destruct Hmode as [-> | ->]; congruence.
      * intros ? [= <-]. exists results. split; [done|]. split.
        -- rewrite !dom_insert_L, dom_empty_L. set_solver.
        -- intros mode [-> | ->].
           ++ exists sem. rewrite lookup_insert_ne, lookup_insert_eq by done.
              split; [done|]. by apply add_frames_all.
           ++ exists kw. rewrite lookup_insert_eq.
              split; [done|]. by apply add_frames_all.
    + split; [|done]. split; [|done]. intros _. right.
      apply add_frames_raises in Hkw as (hit & e & Hin & Hr).
      exists results, "keyword", hit, e. split; [done|]. split; [by right|done].
  - split; [|done]. split; [|done]. intros _. right.
    apply add_frames_raises in Hsem as (hit & e & Hin & Hr).
    exists results, "semantic", hit, e. split; [done|]. split; [by left|done].
Qed.

End search_props.

Lemma search_result_shape_witness :
  ∃ results,
    Search.search keyword_only_index sample_query_vector
      {| use_semantic := true; base_keyframe_dir := "/data/keyframes" |}
      "xe o to" 3 false = Some results ∧
    results !! "keyword" = Some [sample_entry].
Proof.
  eexists. split; [reflexivity|].
  apply (proj2 (search_result_shape keyword_only_index sample_query_vector
                  {| use_semantic := true; base_keyframe_dir := "/data/keyframes" |}
                  "xe o to" 3 false)).
  reflexivity.
Defined.

Lemma frames_attached_witness :
  ∃ results,
    Search.search keyword_only_index sample_query_vector
      {| use_semantic := true; base_keyframe_dir := "/data/keyframes" |}
      "xe o to" 3 false = Some results ∧
    dom (<["keyword" :=
             [ {| source := sample_entry;
                  frames := ["/data/keyframes/K01/K01_V001/105.jpg"];
                  num_frames := 1 |} ]]>
           (<["semantic" := []]> (∅ : gmap string (list framed)))) =
      ({["semantic"; "keyword"]} : gset string).
Proof.
  destruct (proj2 (frames_attached keyword_only_index sample_query_vector
                     sample_tree
                     {| use_semantic := true; base_keyframe_dir := "/data/keyframes" |}
                     "xe o to" 3 false)
              (<["keyword" :=
                   [ {| source := sample_entry;
                        frames := ["/data/keyframes/K01/K01_V001/105.jpg"];
                        num_frames := 1 |} ]]>
                 (<["semantic" := []]> ∅)))
    as (results & Hres & Hdom & _).
  - vm_compute. reflexivity.
  - by exists results.
Defined.

End SearchProps.

(** ** Index creation ([_setup_index]) *)

Module Setup.

(** The field definitions of a mapping, as far as the sources use them. *)
Inductive field_type : Type :=
  | TextField (analyzer : option string)
  | IntegerField
  | FloatField
  | KeywordField
  | DenseVector (dims : nat) (index : bool) (similarity : string).

Record index_state : Type := IndexState {
  properties : list (string * field_type);
  contents : list document
}.

(** The cluster as index creation sees it: whether requests are answered,
    the existing indices, and whether [indices.create] accepts a mapping
    (it refuses one that names an analyzer of a plugin that is not
    installed). *)
Record cluster : Type := Cluster {
  reachable : bool;
  known : gmap string index_state;
  create_accepts : list (string * field_type) → bool
}.

(** The mapping of [audiosearch_engine.py]; [audio_search_engine_list.py]
    has the same fields with no analyzer on ["text"]. *)
Definition speech_properties (analyzer : option string)
    : list (string * field_type) :=
  [ ("text", TextField analyzer);
    ("start_frame", IntegerField);
    ("end_frame", IntegerField);
    ("start_sec", FloatField);
    ("end_sec", FloatField);
    ("file", KeywordField);
    ("video_name", KeywordField);
    ("L", IntegerField);
    ("embedding", DenseVector 768 true "cosine") ].

(** [None] stands for an exception that leaves [_setup_index]. *)
Definition _setup_index (analyzer : option string) (cl : cluster)
    (index_name : string) : option cluster :=
  if negb (reachable cl) then None
  else
    match known cl !! index_name with
    | Some _ => Some cl
    | None =>
        let mapping := speech_properties analyzer in
        if create_accepts cl mapping then
          Some {| reachable := reachable cl;
                  known := <[index_name :=
                               {| properties := mapping; contents := [] |}]>
                             (known cl);
                  create_accepts := create_accepts cl |}
        else None
    end.

Definition vector_dims (idx : index_state) : option nat :=
  match list_find (λ f, f.1 = "embedding") (properties idx) with
  | Some (_, (_, DenseVector dims _ _)) => Some dims
  | _ => None
  end.


(** X13. When [_setup_index] returns, the index exists, every index that
    existed before, the target included, has the mapping and documents it
    had (an existing index is never altered, whatever its mapping), and a
    second call changes nothing.  An index it creates is empty and its
    [embedding] field has 768 dimensions. *)
Theorem setup_index_idempotent (analyzer : option string) (cl cl' : cluster)
    (index_name : string) :
  _setup_index analyzer cl index_name = Some cl' →
  is_Some (known cl' !! index_name) ∧
  (∀ name idx, known cl !! name = Some idx → known cl' !! name = Some idx) ∧
  _setup_index analyzer cl' index_name = Some cl' ∧
  (known cl !! index_name = None →
   ∃ idx, known cl' !! index_name = Some idx ∧
          contents idx = [] ∧
          vector_dims idx = Some Sync.embedding_dims).
Proof.
  unfold _setup_index. destruct (reachable cl) eqn:Hreach; [|done]. cbn [negb].
  destruct (known cl !! index_name) as [old|] eqn:Hold.
  - intros [= <-]. rewrite Hreach, Hold. cbn [negb].
    split; [by eexists|]. split; [done|]. split; [done|]. done.
  - destruct (create_accepts cl _) eqn:Hacc; [|done]. intros [= <-].
    cbn [reachable known create_accepts negb]. rewrite lookup_insert_eq.
    split; [by eexists|]. split; [|split; [done|]].
    + intros name idx Hname. rewrite lookup_insert_ne; [done|]. congruence.
    + intros _. eexists. split; [done|]. split; [done|].
      by destruct analyzer.
Qed.

Definition empty_cluster : cluster :=
  {| reachable := true; known := ∅; create_accepts := λ _, true |}.

Lemma setup_index_idempotent_witness :
  ∃ cl', _setup_index (Some "vietnamese") empty_cluster "speech_index_vn" = Some cl' ∧
         _setup_index (Some "vietnamese") cl' "speech_index_vn" = Some cl'.
Proof.
  eexists. split; [reflexivity|].
  apply (setup_index_idempotent (Some "vietnamese") empty_cluster _
           "speech_index_vn" eq_refl).
Defined.

End Setup.

(** ** [audio_search] of [audio_search_engine_list.py] *)

Module AudioSearch.
Import Keyframes Search Setup.










End AudioSearch.

(** ** Further properties of the export *)

Module ExportProps.
Import PyStr PosixPath ExportIndex.
Local Open Scope nat_scope.

(** The batch written at turn [i] of an export of [all]. *)
Definition chunk (output_dir : string) (size first : nat)
    (all : list document) (i : nat) : option (string * list document) :=
  if decide (i * size < length all) then
    Some (join output_dir [batch_name (first + i)],
          drop_embedding <$> firstn size (skipn (i * size) all))
  else None.

Lemma export_loop_chunks fuel output_dir size all st :
  1 ≤ size → length all ≤ fuel →
  ∃ new,
    export_loop fuel output_dir size (firstn size all) (skipn size all) st =
      Some {| batch_num := batch_num st + length new;
              exported := exported st + length all;
              written := written st ++ new |} ∧
    ∀ i, new !! i = chunk output_dir size (batch_num st) all i.
Proof.
  intros Hsize. revert all st.
  induction fuel as [|fuel IH]; intros all st Hfuel.
  - destruct all as [|d all]; [|simpl in Hfuel; lia].
    exists []. rewrite firstn_nil. cbn [export_loop]. split.
    + destruct st; cbn. by rewrite !Nat.add_0_r, app_nil_r.
    + intros i. unfold chunk. rewrite decide_False by (simpl; lia). done.
  - destruct all as [|d all].
    + exists []. rewrite firstn_nil. cbn [export_loop]. split.
      * destruct st; cbn. by rewrite !Nat.add_0_r, app_nil_r.
      * intros i. unfold chunk. rewrite decide_False by (simpl; lia). done.
    + destruct size as [|size']; [lia|].
      set (size := S size') in *. set (all0 := d :: all) in *.
      assert (firstn size all0 = d :: firstn size' all) as Hhead by done.
      rewrite Hhead. cbn [export_loop scroll_page]. rewrite <- Hhead.
      edestruct (IH (skipn size all0)) as (new & Hloop & Hnew).
      { rewrite length_drop. unfold all0 in *. simpl in *. lia. }
      rewrite Hloop. cbn [batch_num exported written]. cbn [batch_num] in Hnew.
      exists ((join output_dir [batch_name (batch_num st)],
               drop_embedding <$> firstn size all0) :: new). split.
      * f_equal. f_equal.
        -- simpl. lia.
        -- rewrite length_drop, length_take. unfold all0. simpl. lia.
        -- by rewrite <- app_assoc.
      * intros [|i].
        -- unfold chunk. rewrite decide_True by (unfold all0; simpl; lia).
           cbn. by rewrite Nat.add_0_r.
        -- cbn [lookup list_lookup]. rewrite Hnew. unfold chunk.
           rewrite length_drop.
           destruct (decide (i * size < length all0 - size)) as [Hi|Hi].
           ++ rewrite decide_True by lia. rewrite drop_drop.
              replace (S (batch_num st) + i) with (batch_num st + S i) by lia.
              replace (size + i * size) with (S i * size) by lia.
              done.
           ++ rewrite decide_False by lia. done.
Qed.

Lemma export_result es name output_dir size idx :
  ping es = true → indices es !! name = Some idx → 1 ≤ size →
  ∃ new,
    export_index_to_files es name output_dir size =
      Some {| mapping_file := (join output_dir ["mapping.json"], mapping idx);
              batch_files := new;
              metadata_file :=
                (join output_dir ["metadata.json"],
                 {| index_name := name;
                    total_documents := length (docs idx);
                    total_batches := length new;
                    batch_size := size;
                    note := "embedding=None will be regenerated on import" |}) |} ∧
    (∀ i, new !! i = chunk output_dir size 0 (docs idx) i) ∧
    concat new.*2 = drop_embedding <$> docs idx.
Proof.
  intros Hping Hidx Hsize.
  destruct (export_loop_chunks (length (docs idx)) output_dir size (docs idx)
              {| batch_num := 0; exported := 0; written := [] |} Hsize (le_n _))
    as (new & Hloop & Hnew).
  destruct (export_loop_spec (length (docs idx)) output_dir size (docs idx)
              {| batch_num := 0; exported := 0; written := [] |} Hsize (le_n _))
    as (new' & Hloop' & _ & Hconcat & _).
  rewrite Hloop in Hloop'. injection Hloop' as _ Hsame.
  cbn [written app] in Hsame. subst new'.
  exists new. split; [|done].
  unfold export_index_to_files. rewrite Hping, Hidx.
  cbn [negb mbind option_bind scroll_page]. rewrite Hloop. done.
Qed.

(** X15. An export with a batch size of at least one writes, as batch
    number [i], the documents number [i * size] to [(i + 1) * size - 1] of
    the scroll, with their embedding dropped, under the name
    [batch_<i as four digits>.json] in the output directory, for every [i]
    with [i * size] below the number of documents and for no other.  So
    every batch file but the last holds exactly [size] documents, and no
    batch file is empty. *)
Theorem export_batches (es : es_server) (name output_dir : string)
    (size : nat) (idx : es_index) :
  ping es = true → indices es !! name = Some idx → 1 ≤ size →
  ∃ out,
    export_index_to_files es name output_dir size = Some out ∧
    (∀ i, batch_files out !! i = chunk output_dir size 0 (docs idx) i) ∧
    (∀ i path batch,
       batch_files out !! i = Some (path, batch) →
       1 ≤ length batch ≤ size ∧
       (S i < length (batch_files out) → length batch = size)).
Proof.
  intros Hping Hidx Hsize.
  destruct (export_result es name output_dir size idx Hping Hidx Hsize)
    as (new & -> & Hnew & _).
  eexists. split; [done|]. cbn [batch_files]. split; [done|].
  intros i path batch Hi. rewrite Hnew in Hi. unfold chunk in Hi.
  destruct (decide (i * size < length (docs idx))) as [Hlt|]; [|done].
  injection Hi as <- <-. rewrite length_fmap, length_take, length_drop.
  split; [lia|]. intros Hnext.
  apply lookup_lt_is_Some_2 in Hnext as [next Hnext].
  rewrite Hnew in Hnext. unfold chunk in Hnext.
  destruct (decide (S i * size < length (docs idx))); [|done]. lia.
Qed.

(** X16. An export with a batch size of at least one ends without writing
    anything exactly when the server does not answer the ping or the index
    does not exist; otherwise it always completes, the mapping file holds
    the mapping of the index, and the metadata record holds the index name
    and the batch size it was called with. *)
Theorem export_completes (es : es_server) (name output_dir : string)
    (size : nat) :
  1 ≤ size →
  (export_index_to_files es name output_dir size = None ↔
   ping es = false ∨ indices es !! name = None) ∧
  (∀ out idx,
     export_index_to_files es name output_dir size = Some out →
     indices es !! name = Some idx →
     mapping_file out = (join output_dir ["mapping.json"], mapping idx) ∧
     (metadata_file out).1 = join output_dir ["metadata.json"] ∧
     index_name (metadata_file out).2 = name ∧
     batch_size (metadata_file out).2 = size).
Proof.
  intros Hsize.
  destruct (ping es) eqn:Hping.
  - destruct (indices es !! name) as [idx|] eqn:Hidx.
    + destruct (export_result es name output_dir size idx Hping Hidx Hsize)
        as (new & -> & _).
      split; [by split; [|intros [|]]|]. by intros out idx' [= <-] [= <-].
    + unfold export_index_to_files. rewrite Hping, Hidx.
      split; [by split; [right|]|done].
  - unfold export_index_to_files. rewrite Hping.
    split; [by split; [left|]|done].
Qed.

Lemma export_batches_witness :
  ∃ out,
    export_index_to_files (sample_server 7) "speech_index" "out" 3 = Some out ∧
    ∀ i, batch_files out !! i =
         chunk "out" 3 0 (sample_doc <$> seq 0 7) i.
Proof.
  destruct (export_batches (sample_server 7) "speech_index" "out" 3
              {| mapping := "{}"; docs := sample_doc <$> seq 0 7 |}
              eq_refl eq_refl ltac:(lia))
    as (out & Hout & Hchunks & _).
  by exists out.
Defined.

Lemma export_completes_witness :
  export_index_to_files (sample_server 7) "missing_index" "out" 3 = None.
Proof.
  apply (proj1 (export_completes (sample_server 7) "missing_index" "out" 3
                  ltac:(lia))).
  right. reflexivity.
Defined.

End ExportProps.

(** ** Further properties of the import *)

Module ImportProps.
Import PyStr PosixPath ExportIndex ImportIndex.
Local Open Scope nat_scope.

Section import_props.

Variable response : string.
Variable encode : string → option (list Q).
Variable bulk_accepts : document → bool.
Variable bulk_raises : nat → bool.

Local Abbreviation prepare := (ImportIndex.prepare encode).
Local Abbreviation import_batch :=
  (ImportIndex.import_batch encode bulk_accepts bulk_raises).
Local Abbreviation import_batches :=
  (ImportIndex.import_batches encode bulk_accepts bulk_raises).
Local Abbreviation create_and_load :=
  (ImportIndex.create_and_load encode bulk_accepts bulk_raises).
Local Abbreviation import_index_from_files :=
  (ImportIndex.import_index_from_files response encode bulk_accepts bulk_raises).








(** X18. An import changes no index other than the one named in the
    metadata file, whatever the answer at the prompt and however the call
    ends. *)
Theorem import_touches_one_index (es : es_server) (src : import_source)
    (regenerate_embeddings : bool) (name : string) :
  (∀ meta, metadata_json src = Some meta → name ≠ index_name meta) →
  indices (import_index_from_files es src regenerate_embeddings).2 !! name =
  indices es !! name.
Proof.
  intros Hname. unfold ImportIndex.import_index_from_files.
  destruct (input_dir_exists src); [|done].
  destruct (ping es); [|done]. cbn [negb].
  destruct (metadata_json src) as [meta|]; [|done].
  specialize (Hname meta eq_refl).
  destruct (mapping_json src) as [original_mapping|]; [|done].
  assert (∀ es0,
            indices (create_and_load es0 src regenerate_embeddings
                       (index_name meta) original_mapping
                       (total_documents meta) (total_batches meta)).2 !! name =
            indices es0 !! name) as Hload.
  { intros es0. unfold ImportIndex.create_and_load.
    destruct (ImportIndex.import_batches _ _ _ _ _ _ _) as [st ok].
    destruct ok; cbn [snd indices with_index];
      by rewrite !lookup_insert_ne. }
  destruct (indices es !! index_name meta).
  - destruct (String.eqb (lower response) "yes"); cbn [negb]; [|done].
    rewrite Hload. cbn [indices with_index]. by rewrite lookup_delete_ne.
  - apply Hload.
Qed.

End import_props.

(** *** Examples *)

(** A server that holds the speech index and another index. *)
Definition shared_server : es_server :=
  {| ping := true;
     indices := <[ "ocr_index" := {| mapping := "{}"; docs := [sample_doc 7] |} ]>
                  (indices (sample_server 2)) |}.


Lemma import_touches_one_index_witness :
  indices (ImportIndex.import_index_from_files "yes" sample_encode
             (λ _, true) (λ _, false) shared_server sample_export true).2
    !! "ocr_index" =
  indices shared_server !! "ocr_index".
Proof.
  apply (import_touches_one_index "yes" sample_encode (λ _, true) (λ _, false)
           shared_server sample_export true "ocr_index").
  intros meta Hmeta.
  change (Some sample_metadata = Some meta) in Hmeta. injection Hmeta as <-.
  vm_compute. discriminate.
Defined.

End ImportProps.


(** ** Export followed by import *)

Module RoundTrip.
Import PyStr PosixPath ExportIndex ImportIndex ExportProps.
Local Open Scope nat_scope.

(** The directory an export wrote, as an import reads it when its
    [input_dir] is the [output_dir] of the export: the batch file of a
    number is the file written under the name built for that number, and
    the mapping extracted from the mapping file is the mapping of the
    exported index. *)
Definition exported_dir (output_dir : string) (out : export_files)
    : import_source :=
  {| input_dir_exists := true;
     metadata_json := Some (metadata_file out).2;
     mapping_json := Some (mapping_file out).2;
     batch_json := λ n,
       (λ found, found.2.2) <$>
       list_find (λ f, f.1 = join output_dir [batch_name n]) (batch_files out) |}.

Lemma find_batch output_dir size all (new : list (string * list document)) n :
  (∀ i, new !! i = chunk output_dir size 0 all i) →
  (λ found : nat * (string * list document), found.2.2) <$>
    list_find (λ f, f.1 = join output_dir [batch_name n]) new =
  snd <$> new !! n.
Proof.
  intros Hnew.
  assert (∀ j y, new !! j = Some y → y.1 = join output_dir [batch_name j])
    as Hname.
  { intros j y Hj. rewrite Hnew in Hj. unfold chunk in Hj.
    destruct (decide _); [|done]. by injection Hj as <-. }
  destruct (new !! n) as [[path batch]|] eqn:Hn.
  - assert (list_find (λ f, f.1 = join output_dir [batch_name n]) new =
            Some (n, (path, batch))) as ->; [|done].
    apply list_find_Some. split; [done|]. split; [by apply (Hname n)|].
    intros j y Hj Hlt Heq. rewrite (Hname j y Hj) in Heq.
    apply batch_path_inj in Heq. lia.
  - assert (list_find (λ f, f.1 = join output_dir [batch_name n]) new = None)
      as ->; [|done].
    apply list_find_None, Forall_forall. intros y Hy Heq.
    apply list_elem_of_lookup in Hy as [j Hj].
    rewrite (Hname j y Hj) in Heq. apply batch_path_inj in Heq. subst j.
    congruence.
Qed.

Lemma mapM_keep {A} (f : A → option A) (l : list A) :
  (∀ x, f x = Some x) → mapM f l = Some l.
Proof.
  intros Hf. apply mapM_Some_2. induction l; constructor; auto.
Qed.

Lemma filter_const_true {A} (l : list A) : filter (λ _, true = true) l = l.
Proof.
  induction l as [|x l IH]; [done|].
  rewrite filter_cons. destruct (decide (true = true)); [by rewrite IH|done].
Qed.

Lemma filter_const_false {A} (l : list A) : filter (λ _, true = false) l = [].
Proof.
  induction l as [|x l IH]; [done|].
  rewrite filter_cons. destruct (decide (true = false)); [done|apply IH].
Qed.

Lemma prepare_off encode doc : ImportIndex.prepare encode false doc = Some doc.
Proof. unfold ImportIndex.prepare. by destruct (get_embedding doc). Qed.

Lemma import_batches_all encode src (batches : list (list document)) m st :
  (∀ i b, batches !! i = Some b → batch_json src (m + i) = Some b) →
  ImportIndex.import_batches encode (λ _, true) (λ _, false) src false st
    (seq m (length batches)) =
  ({| stored := stored st ++ concat batches;
      imported_so_far := imported_so_far st + length (concat batches);
      errors_so_far := errors_so_far st |}, true).
Proof.
  revert m st. induction batches as [|b batches IH]; intros m st Hsrc.
  - cbn. rewrite app_nil_r, Nat.add_0_r. by destruct st.
  - cbn [length seq ImportIndex.import_batches].
    unfold ImportIndex.import_batch.
    rewrite <- (Nat.add_0_r m) at 1. rewrite (Hsrc 0 b eq_refl).
    rewrite (mapM_keep _ b (prepare_off encode)). cbn [mbind option_bind].
    rewrite IH.
    + cbn [stored imported_so_far errors_so_far concat].
      rewrite (filter_const_true b), (filter_const_false b).
      rewrite length_app, <- app_assoc. cbn [length].
      f_equal. f_equal; lia.
    + intros i b' Hi. rewrite <- (Hsrc (S i) b' Hi). f_equal. lia.
Qed.

(** X19. Round trip.  Take an export with a batch size of at least one and
    import the directory it wrote, without regenerating embeddings, into a
    server that answers, accepts every document, and either has no index of
    that name or is told "yes" at the prompt.  The import ends with its
    summary: the index then holds the mapping and the documents of the
    exported index, in scroll order, each with its embedding dropped;
    [imported] and the final count equal the number of exported documents,
    there is no error, and the counts are reported as matching. *)
Theorem export_then_import (es target : es_server) (name output_dir : string)
    (size : nat) (idx : es_index) (out : export_files) (response : string)
    (encode : string → option (list Q)) :
  ping es = true → indices es !! name = Some idx → 1 ≤ size →
  export_index_to_files es name output_dir size = Some out →
  ping target = true →
  indices target !! name = None ∨ lower response = "yes" →
  let result :=
    ImportIndex.import_index_from_files response encode (λ _, true) (λ _, false)
      target (exported_dir output_dir out) false in
  result.1 = Finished {| imported := length (docs idx); errors := 0;
                         final_count := length (docs idx);
                         count_matches := true |} ∧
  indices result.2 !! name =
    Some {| mapping := mapping idx; docs := drop_embedding <$> docs idx |}.
Proof.
  intros Hping Hidx Hsize Hexport Htarget Hconfirm.
  destruct (export_result es name output_dir size idx Hping Hidx Hsize)
    as (new & Hout & Hnew & Hconcat).
  rewrite Hexport in Hout. injection Hout as ->.
  assert (∀ es0,
            let loaded :=
              ImportIndex.create_and_load encode (λ _, true) (λ _, false) es0
                (exported_dir output_dir
                   {| mapping_file := (join output_dir ["mapping.json"], mapping idx);
                      batch_files := new;
                      metadata_file :=
                        (join output_dir ["metadata.json"],
                         {| index_name := name;
                            total_documents := length (docs idx);
                            total_batches := length new;
                            batch_size := size;
                            note := "embedding=None will be regenerated on import" |}) |})
                false name (mapping idx) (length (docs idx)) (length new) in
            loaded.1 = Finished {| imported := length (docs idx); errors := 0;
                                   final_count := length (docs idx);
                                   count_matches := true |} ∧
            indices loaded.2 !! name =
              Some {| mapping := mapping idx;
                      docs := drop_embedding <$> docs idx |}) as Hload.
  { intros es0 loaded. unfold loaded, ImportIndex.create_and_load.
    rewrite <- (length_fmap snd new).
    rewrite (import_batches_all encode _ new.*2 0).
    - cbn [stored imported_so_far errors_so_far app Nat.add fst snd
             indices with_index].
      rewrite lookup_insert_eq, Hconcat, length_fmap, Nat.eqb_refl. done.
    - intros i b Hi. cbn [exported_dir batch_json batch_files Nat.add].
      by rewrite (find_batch output_dir size (docs idx) new i Hnew),
                 <- list_lookup_fmap. }
  intros result. unfold result, ImportIndex.import_index_from_files.
  cbn [exported_dir input_dir_exists metadata_json mapping_json metadata_file
         mapping_file snd index_name total_documents total_batches negb].
  rewrite Htarget. cbn [negb].
  destruct (indices target !! name) as [old|] eqn:Hold.
  - destruct Hconfirm as [|Hyes]; [done|]. rewrite Hyes, String.eqb_refl.
    cbn [negb]. apply Hload.
  - apply Hload.
Qed.

Lemma export_then_import_witness :
  ∃ out,
    export_index_to_files (sample_server 3) "speech_index" "out" 2 = Some out ∧
    (ImportIndex.import_index_from_files "" sample_encode (λ _, true) (λ _, false)
       {| ping := true; indices := ∅ |} (exported_dir "out" out) false).1 =
    Finished {| imported := 3; errors := 0; final_count := 3;
                count_matches := true |}.
Proof.
  destruct (export_index_to_files (sample_server 3) "speech_index" "out" 2)
    as [out|] eqn:Hexport; [|vm_compute in Hexport; discriminate].
  exists out. split; [reflexivity|].
  apply (proj1 (export_then_import (sample_server 3)
                  {| ping := true; indices := ∅ |} "speech_index" "out" 2
                  {| mapping := "{}"; docs := sample_doc <$> seq 0 3 |}
                  out "" sample_encode eq_refl eq_refl
                  (le_S 1 1 (le_n 1)) Hexport eq_refl
                  ltac:(left; reflexivity))).
Defined.

End RoundTrip.

(** ** [utils/forced_deleated_index.py] *)

Module ForceDelete.
Import ExportIndex ImportIndex.

(** The name fixed in the script. *)
Definition INDEX_NAME : string := "ocr_index".

(** How [es.indices.delete] ends: the index is removed and the call
    returns; the request is refused and the call raises; or the index is
    removed but the answer does not reach the client, which raises (a time
    out). *)
Inductive delete_end : Type :=
  | DeleteDone
  | DeleteRefused
  | DeleteReplyLost.

(** The requests of one call that can raise although the ping was
    answered. *)
Record faults : Type := Faults {
  exists_raises : bool;
  count_raises : bool;
  delete_ends : delete_end
}.

(** [force_delete_index]: the value returned and the server afterwards.
    There is no prompt.  The whole body is inside [try ... except
    Exception], which returns [False], so no exception of a request leaves
    the function. *)
Definition force_delete_index (es : es_server) (f : faults)
    : bool * es_server :=
  if negb (ping es) then (false, es)
  else if exists_raises f then (false, es)
  else
    match indices es !! INDEX_NAME with
    | None => (false, es)
    | Some _ =>
        if count_raises f then (false, es)
        else
          match delete_ends f with
          | DeleteDone => (true, with_index es INDEX_NAME None)
          | DeleteRefused => (false, es)
          | DeleteReplyLost => (false, with_index es INDEX_NAME None)
          end
    end.

Definition no_fault : faults :=
  {| exists_raises := false; count_raises := false; delete_ends := DeleteDone |}.

(** X20. [force_delete_index] returns [True] exactly when the server
    answers the ping, holds an index named "ocr_index", and the three
    requests that follow end without an exception; that index is then gone,
    whatever it held, and a further call returns [False] and changes
    nothing.  Whatever the requests do, every index of another name, the
    "speech_index" of the search engine among them, is left as it was.  A
    call that returns [False] has changed nothing, except when the answer
    to the delete request was lost: the index is then gone although the
    call reports a failure. *)
Theorem force_delete_only_ocr_index (es : es_server) (f : faults) :
  let result := force_delete_index es f in
  (result.1 = true ↔
     ping es = true ∧ exists_raises f = false ∧
     is_Some (indices es !! INDEX_NAME) ∧
     count_raises f = false ∧ delete_ends f = DeleteDone) ∧
  (result.1 = true →
     indices result.2 !! INDEX_NAME = None ∧
     ∀ f', force_delete_index result.2 f' = (false, result.2)) ∧
  (∀ name, name ≠ INDEX_NAME →
     indices result.2 !! name = indices es !! name) ∧
  indices result.2 !! "speech_index" = indices es !! "speech_index" ∧
  (result.1 = false → delete_ends f ≠ DeleteReplyLost → result.2 = es) ∧
  (ping es = true → exists_raises f = false → count_raises f = false →
   is_Some (indices es !! INDEX_NAME) → delete_ends f = DeleteReplyLost →
   result.1 = false ∧ indices result.2 !! INDEX_NAME = None).
Proof.
  intros result.
  assert (∀ name, name ≠ INDEX_NAME →
            indices result.2 !! name = indices es !! name) as Hother.
  { intros name Hname. unfold result, force_delete_index.
    destruct (ping es); [|done]. cbn [negb].
    destruct (exists_raises f); [done|].
    destruct (indices es !! INDEX_NAME); [|done].
    destruct (count_raises f); [done|].
    destruct (delete_ends f); cbn [snd indices with_index];
      by rewrite ?lookup_delete_ne. }
  split; [|split; [|split; [|split; [|split]]]].
  - unfold result, force_delete_index.
    destruct (ping es); cbn [negb]; [|by split; [|intros [? _]]].
    destruct (exists_raises f); [by split; [|intros (_ & ? & _)]|].
    destruct (indices es !! INDEX_NAME) as [idx|];
      [|by split; [|intros (_ & _ & [? ?] & _)]].
    destruct (count_raises f); [by split; [|intros (_ & _ & _ & ? & _)]|].
    destruct (delete_ends f); cbn [fst].
    + split; [by eauto 10|done].
    + by split; [|intros (_ & _ & _ & _ & ?)].
    + by split; [|intros (_ & _ & _ & _ & ?)].
  - unfold result, force_delete_index.
    destruct (ping es) eqn:Hping; [|done]. cbn [negb].
    destruct (exists_raises f); [done|].
    destruct (indices es !! INDEX_NAME); [|done].
    destruct (count_raises f); [done|].
    destruct (delete_ends f); [|done..]. intros _.
    cbn [snd indices with_index]. split; [by rewrite lookup_delete_eq|].
    intros f'. unfold with_index. cbn [ping indices]. rewrite Hping.
    cbn [negb]. destruct (exists_raises f'); [done|].
    by rewrite lookup_delete_eq.
  - done.
  - by apply Hother.
  - unfold result, force_delete_index.
    destruct (ping es); [|done]. cbn [negb].
    destruct (exists_raises f); [done|].
    destruct (indices es !! INDEX_NAME); [|done].
    destruct (count_raises f); [done|].
    by destruct (delete_ends f).
  - intros Hping Hexists Hcount [idx Hidx] Hlost.
    unfold result, force_delete_index.
    rewrite Hping, Hexists, Hidx, Hcount, Hlost.
    cbn [negb fst snd indices with_index]. by rewrite lookup_delete_eq.
Qed.

Lemma force_delete_only_ocr_index_witness :
  indices (force_delete_index ImportProps.shared_server no_fault).2
    !! INDEX_NAME = None ∧
  indices (force_delete_index ImportProps.shared_server no_fault).2
    !! "speech_index" = indices (sample_server 2) !! "speech_index".
Proof.
  pose proof (force_delete_only_ocr_index ImportProps.shared_server no_fault)
    as (_ & Hgone & Hother & _).
  split.
  - apply Hgone. reflexivity.
  - rewrite Hother; [reflexivity|discriminate].
Defined.

End ForceDelete.
